(** * Subtitle-track synchronisation diagnostics

    A shallow embedding of the analysis scripts [find_good_sync.py],
    [sync_repair.py] and [verify_sync_range.py]: the timestamp decoder, the
    lenient SRT parser, the sync-boundary finder, the issue classifier and the
    range verifier, followed by the properties established about them.

    Conventions of the embedding:
    - a Python [int] is a [Z];
    - a Python [str] is a [string], one character per code unit of its UTF-8
      encoding (the files are read with [encoding='utf-8']), so that the byte
      order mark U+FEFF is the three characters EF BB BF;
    - a raised exception is the left injection of a sum, a returned value the
      right one;
    - a [dict] whose iteration order is never observed is a [gmap]; the
      timestamp dictionary of the classifier, whose [items()] are iterated, is
      an association list in insertion order;
    - [print] calls are omitted: they do not influence any returned value. *)

From Stdlib Require Import ZArith Lia List Ascii String Bool.
From Stdlib Require Import Sorted Permutation.
From stdpp Require Import base option list gmap.
Import ListNotations.

Local Open Scope string_scope.
Local Open Scope list_scope.
Local Open Scope Z_scope.

(** ** Exceptions *)

Module Py.

Inductive exn : Type :=
| ValueError
| IndexError
| TypeError.

Definition result (A : Type) : Type := (exn + A)%type.

Definition ret {A} (a : A) : result A := inr a.
Definition raise {A} (e : exn) : result A := inl e.

Definition bind {A B} (m : result A) (k : A -> result B) : result B :=
  match m with
  | inl e => inl e
  | inr a => k a
  end.

Fixpoint mapM {A B} (f : A -> result B) (l : list A) : result (list B) :=
  match l with
  | [] => ret []
  | a :: l' =>
      bind (f a) (fun b => bind (mapM f l') (fun bs => ret (b :: bs)))
  end.

(** [try: body / except classes: handler]: an exception of a listed class is
    handled, any other one propagates. *)
Definition try_except {A} (body : result A) (classes : exn -> bool)
    (handler : result A) : result A :=
  match body with
  | inl e => if classes e then handler else inl e
  | inr a => inr a
  end.

(** ** Strings *)

(** [c.isspace()] on the ASCII range: TAB, LF, VT, FF, CR, FS, GS, RS, US and
    the space. *)
Definition isspace (c : ascii) : bool :=
  let n := N_of_ascii c in
  ((9 <=? n) && (n <=? 13) || (28 <=? n) && (n <=? 32))%N.

Fixpoint lstrip (s : string) : string :=
  match s with
  | String c s' => if isspace c then lstrip s' else s
  | EmptyString => EmptyString
  end.

(** [rstrip] keeps a character when it is not a space or when something is
    kept after it. *)
Fixpoint rstrip (s : string) : string :=
  match s with
  | EmptyString => EmptyString
  | String c s' =>
      match rstrip s' with
      | EmptyString => if isspace c then EmptyString else String c EmptyString
      | r => String c r
      end
  end.

(** [s.strip()] *)
Definition strip (s : string) : string := rstrip (lstrip s).

(** [s.replace(a, b)] for one-character [a] and [b]. *)
Fixpoint replace (a b : ascii) (s : string) : string :=
  match s with
  | EmptyString => EmptyString
  | String c s' =>
      String (if Ascii.eqb c a then b else c) (replace a b s')
  end.

(** [s.split(sep)] for a non-empty [sep]: the occurrences of [sep] are taken
    from left to right without overlap. [skip] counts the characters of a
    separator that has been recognised and is still being consumed, [cur] is
    the piece read so far. *)
Fixpoint split_go (sep : string) (skip : nat) (cur : string) (s : string)
    : list string :=
  match s with
  | EmptyString => [cur]
  | String c s' =>
      match skip with
      | S k => split_go sep k cur s'
      | O =>
          if String.prefix sep s
          then cur :: split_go sep (String.length sep - 1) EmptyString s'
          else split_go sep O (cur ++ String c EmptyString)%string s'
      end
  end.

Definition split (sep : string) (s : string) : list string :=
  split_go sep O EmptyString s.

(** [sub in s] *)
Fixpoint contains (sub : string) (s : string) : bool :=
  String.prefix sub s ||
  match s with
  | EmptyString => false
  | String _ s' => contains sub s'
  end.

(** [sep.join(l)] *)
Fixpoint join (sep : string) (l : list string) : string :=
  match l with
  | [] => EmptyString
  | [x] => x
  | x :: l' => (x ++ sep ++ join sep l')%string
  end.

(** [l[i]] for a non-negative [i]. *)
Definition getitem {A} (l : list A) (i : nat) : result A :=
  match nth_error l i with
  | Some a => ret a
  | None => raise IndexError
  end.

(** ** [int(s)] in base ten *)

Definition digit_of (c : ascii) : option Z :=
  let n := N_of_ascii c in
  if ((48 <=? n) && (n <=? 57))%N then Some (Z.of_N n - 48) else None.

(** Digits, with single underscores allowed between two digits.
    [after_digit] tells whether the previous character was a digit. *)
Fixpoint int_digits (acc : Z) (after_digit : bool) (s : string) : option Z :=
  match s with
  | EmptyString => if after_digit then Some acc else None
  | String c s' =>
      match digit_of c with
      | Some d => int_digits (acc * 10 + d) true s'
      | None =>
          if Ascii.eqb c "_" && after_digit then int_digits acc false s'
          else None
      end
  end.

(** [int(s)]: surrounding whitespace is ignored, one sign is allowed. The
    decimal digits are the ASCII ones. *)
Definition int (s : string) : result Z :=
  let body :=
    match strip s with
    | String "+" r => int_digits 0 false r
    | String "-" r => Z.opp <$> int_digits 0 false r
    | r => int_digits 0 false r
    end in
  match body with
  | Some z => ret z
  | None => raise ValueError
  end.

(** [min(x :: xs, key=key)]: the first element whose key is minimal. *)
Definition min_by {A} (key : A -> Z) (x : A) (xs : list A) : A :=
  fold_left (fun best y => if key y <? key best then y else best) xs x.

(** [max(l)], which raises [ValueError] on an empty sequence. *)
Definition max (l : list Z) : result Z :=
  match l with
  | [] => raise ValueError
  | x :: xs =>
      ret (fold_left (fun best y => if best <? y then y else best) xs x)
  end.

(** [range(a, b)] *)
Definition range (a b : Z) : list Z :=
  List.map (fun k => a + Z.of_nat k) (seq 0 (Z.to_nat (b - a))).

End Py.

Notation "'let*' x ':=' m 'in' k" := (Py.bind m (fun x => k))
  (at level 10, x name, m at level 100, k at level 200).

(** ** Data model *)

Record Subtitle : Type := mkSubtitle {
  index : Z;
  start_time : string;
  end_time : string;
  text : string;
  timestamp_ms : Z
}.

(** ** Timestamp decoder *)

Definition parse_timestamp (time_str : string) : Py.result Z :=
  let parts := Py.split ":" (Py.replace "," ":" time_str) in
  let* ints := Py.mapM Py.int parts in
  match ints with
  | [hours; minutes; seconds; ms] =>
      Py.ret (((hours * 3600 + minutes * 60 + seconds) * 1000) + ms)
  | _ => Py.raise Py.ValueError
  end.

(** ** Parser

    [parse_srt_file] of the three scripts, applied to the text that
    [f.read()] returned. The versions differ only in what the handler prints. *)

(** The byte order mark U+FEFF in UTF-8. *)
Definition BOM : string :=
  String (ascii_of_N 239)
    (String (ascii_of_N 187) (String (ascii_of_N 191) EmptyString)).

Definition LF : string := String (ascii_of_N 10) EmptyString.

(** [a, b = l] *)
Definition unpack2 {A} (l : list A) : Py.result (A * A) :=
  match l with
  | [a; b] => Py.ret (a, b)
  | _ => Py.raise Py.ValueError
  end.

(** The suite of the [try] statement; [None] stands for its [continue]. *)
Definition parse_block (lines : list string) : Py.result (option Subtitle) :=
  let* line0 := Py.getitem lines 0 in
  let* index := Py.int line0 in
  let* time_line := Py.getitem lines 1 in
  let text_lines := skipn 2 lines in
  if negb (Py.contains "-->" time_line) then Py.ret None
  else
    let* times := unpack2 (Py.split " --> " time_line) in
    let '(start_time, end_time) := times in
    let* start_ms := parse_timestamp (Py.strip start_time) in
    let text := Py.join LF text_lines in
    Py.ret (Some {| index := index;
                    start_time := Py.strip start_time;
                    end_time := Py.strip end_time;
                    text := text;
                    timestamp_ms := start_ms |}).

(** [except (ValueError, IndexError)] *)
Definition handled (e : Py.exn) : bool :=
  match e with
  | Py.ValueError | Py.IndexError => true
  | _ => false
  end.

(** One iteration of [for block in blocks], on the list built so far. *)
Definition parse_step (subtitles : list Subtitle) (block : string)
    : Py.result (list Subtitle) :=
  if String.eqb (Py.strip block) EmptyString then Py.ret subtitles
  else
    let lines := Py.split LF (Py.strip block) in
    if (length lines <? 3)%nat then Py.ret subtitles
    else
      Py.try_except
        (let* r := parse_block lines in
         match r with
         | Some sub => Py.ret (subtitles ++ [sub])
         | None => Py.ret subtitles
         end)
        handled
        (Py.ret subtitles).

Fixpoint parse_blocks (subtitles : list Subtitle) (blocks : list string)
    : Py.result (list Subtitle) :=
  match blocks with
  | [] => Py.ret subtitles
  | block :: rest =>
      let* subtitles' := parse_step subtitles block in
      parse_blocks subtitles' rest
  end.

Definition parse_srt_file (file_text : string) : Py.result (list Subtitle) :=
  let content := Py.strip file_text in
  let content :=
    if String.prefix BOM content
    then String.substring 3 (String.length content - 3) content
    else content in
  let blocks := Py.split (LF ++ LF)%string content in
  parse_blocks [] blocks.

(** ** Track index

    [{sub.index: sub for sub in subs}]: a later record replaces an earlier one
    with the same sequence number. *)

Definition by_index (subs : list Subtitle) : gmap Z Subtitle :=
  fold_left (fun m sub => <[index sub := sub]> m) subs ∅.

(** [d.keys()], read only through [max]. *)
Definition keys (d : gmap Z Subtitle) : list Z := (map_to_list d).*1.

(** ** Sync-boundary finder ([find_good_sync.py]) *)

Record sync_state : Type := mkSync {
  last_good : Z;
  consecutive_good : Z
}.

(** The body of [for i in range(1, ...)]. *)
Definition sync_step (en_by_index es_by_index : gmap Z Subtitle)
    (st : sync_state) (i : Z) : sync_state :=
  match en_by_index !! i, es_by_index !! i with
  | Some en_sub, Some es_sub =>
      let time_diff := Z.abs (timestamp_ms en_sub - timestamp_ms es_sub) in
      if time_diff <=? 500 then
        let consecutive_good := consecutive_good st + 1 in
        if 5 <=? consecutive_good
        then {| last_good := i; consecutive_good := consecutive_good |}
        else {| last_good := last_good st;
                consecutive_good := consecutive_good |}
      else {| last_good := last_good st; consecutive_good := 0 |}
  | _, _ => {| last_good := last_good st; consecutive_good := 0 |}
  end.

Definition find_last_good_sync (en_subs es_subs : list Subtitle)
    : Py.result Z :=
  let en_by_index := by_index en_subs in
  let es_by_index := by_index es_subs in
  let* max_en := Py.max (keys en_by_index) in
  let* max_es := Py.max (keys es_by_index) in
  let st := fold_left (sync_step en_by_index es_by_index)
              (Py.range 1 (Z.min max_en max_es + 1))
              {| last_good := 0; consecutive_good := 0 |} in
  Py.ret (last_good st).

(** ** Range verifier ([verify_sync_range.py]) *)

(** The entries of [errors] and [warnings]. Each constructor stands for one
    of the five message formats, which differ in their fixed text. *)
Inductive message : Type :=
| MissingReference (i : Z)          (* f"#{i}: FALTA EN INGLÉS" *)
| MissingCandidate (i : Z)          (* f"#{i}: FALTA EN ESPAÑOL" *)
| Desync (i time_diff : Z)
    (* f"#{i}: DESYNC - Diferencia: {time_diff}ms" *)
| MinorDeviation (i time_diff : Z)
    (* f"#{i}: Pequeña desviación: {time_diff}ms" *)
| ChronologicalOrder (i : Z).
    (* f"#{i}: ORDEN CRONOLÓGICO INCORRECTO - tiempo anterior al previo" *)

Record verify_state : Type := mkVerify {
  errors : list message;
  warnings : list message;
  good_count : Z
}.

(** The body of [for i in range(start_range, end_range + 1)]. *)
Definition verify_step (en_by_index es_by_index : gmap Z Subtitle)
    (start_range : Z) (st : verify_state) (i : Z) : verify_state :=
  match en_by_index !! i with
  | None =>
      {| errors := errors st ++ [MissingReference i];
         warnings := warnings st; good_count := good_count st |}
  | Some en_sub =>
      match es_by_index !! i with
      | None =>
          {| errors := errors st ++ [MissingCandidate i];
             warnings := warnings st; good_count := good_count st |}
      | Some es_sub =>
          let time_diff :=
            Z.abs (timestamp_ms en_sub - timestamp_ms es_sub) in
          let st1 :=
            if 100 <? time_diff then
              {| errors := errors st ++ [Desync i time_diff];
                 warnings := warnings st; good_count := good_count st |}
            else if 50 <? time_diff then
              {| errors := errors st;
                 warnings := warnings st ++ [MinorDeviation i time_diff];
                 good_count := good_count st |}
            else
              {| errors := errors st; warnings := warnings st;
                 good_count := good_count st + 1 |} in
          if start_range <? i then
            match es_by_index !! (i - 1) with
            | Some prev_es =>
                if timestamp_ms es_sub <? timestamp_ms prev_es then
                  {| errors := errors st1 ++ [ChronologicalOrder i];
                     warnings := warnings st1;
                     good_count := good_count st1 |}
                else st1
            | None => st1
            end
          else st1
      end
  end.

(** The values of [errors], [warnings] and [good_count] when the loop ends. *)
Definition verify_range_loop (en_subs es_subs : list Subtitle)
    (start_range end_range : Z) : verify_state :=
  fold_left (verify_step (by_index en_subs) (by_index es_subs) start_range)
    (Py.range start_range (end_range + 1))
    {| errors := []; warnings := []; good_count := 0 |}.

(** [return len(errors) == 0] *)
Definition verify_range_sync (en_subs es_subs : list Subtitle)
    (start_range end_range : Z) : bool :=
  (length (errors (verify_range_loop en_subs es_subs start_range end_range))
   =? 0)%nat.

(** ** Issue classifier ([sync_repair.py]) *)

(** [es_by_time]: a dictionary from a timestamp to the candidate records that
    carry it, kept in insertion order because [items()] is iterated. *)
Module TimeDict.

Definition t : Type := list (Z * list Subtitle).

Fixpoint get (k : Z) (d : t) : option (list Subtitle) :=
  match d with
  | [] => None
  | (k', v) :: d' => if k' =? k then Some v else get k d'
  end.

(** [k in d] *)
Definition mem (k : Z) (d : t) : bool :=
  match get k d with Some _ => true | None => false end.

(** [d[k] = v] for a key that is not in [d]: the entry goes last. *)
Definition add_new (k : Z) (v : list Subtitle) (d : t) : t := d ++ [(k, v)].

(** [d[k].append(x)] *)
Fixpoint append_at (k : Z) (x : Subtitle) (d : t) : t :=
  match d with
  | [] => []
  | (k', v) :: d' =>
      if k' =? k then (k', v ++ [x]) :: d' else (k', v) :: append_at k x d'
  end.

End TimeDict.

Record issues : Type := mkIssues {
  missing_in_es : list Subtitle;
  duplicates_in_es : list Subtitle;
  time_drifts : list (Subtitle * Subtitle);
  index_mismatches : list (Subtitle * Subtitle)
}.

(** The body of [for es_sub in es_subs]. *)
Definition by_time_step (es_by_time : TimeDict.t) (es_sub : Subtitle)
    : TimeDict.t :=
  let time_key := timestamp_ms es_sub in
  let es_by_time :=
    if negb (TimeDict.mem time_key es_by_time)
    then TimeDict.add_new time_key [] es_by_time
    else es_by_time in
  TimeDict.append_at time_key es_sub es_by_time.

Definition build_es_by_time (es_subs : list Subtitle) : TimeDict.t :=
  fold_left by_time_step es_subs [].

(** The inner loop over [es_by_time.items()] that collects [close_matches]. *)
Definition close_matches_of (es_by_time : TimeDict.t) (en_sub : Subtitle)
    : list Subtitle :=
  fold_left
    (fun close_matches item =>
       let '(es_time, es_list) := item in
       if Z.abs (es_time - timestamp_ms en_sub) <=? 500
       then close_matches ++ es_list
       else close_matches)
    es_by_time [].

(** The body of [for en_sub in en_subs]. [min] is only reached with a
    non-empty [close_matches]. *)
Definition issue_step (es_by_time : TimeDict.t) (iss : issues)
    (en_sub : Subtitle) : issues :=
  let exact_match :=
    default [] (TimeDict.get (timestamp_ms en_sub) es_by_time) in
  match exact_match with
  | [] =>
      match close_matches_of es_by_time en_sub with
      | [] =>
          {| missing_in_es := missing_in_es iss ++ [en_sub];
             duplicates_in_es := duplicates_in_es iss;
             time_drifts := time_drifts iss;
             index_mismatches := index_mismatches iss |}
      | c :: cs =>
          let best_match :=
            Py.min_by
              (fun x => Z.abs (timestamp_ms x - timestamp_ms en_sub)) c cs in
          if 200 <? Z.abs (timestamp_ms best_match - timestamp_ms en_sub)
          then
            {| missing_in_es := missing_in_es iss;
               duplicates_in_es := duplicates_in_es iss;
               time_drifts := time_drifts iss ++ [(en_sub, best_match)];
               index_mismatches := index_mismatches iss |}
          else iss
      end
  | es_match :: rest =>
      let duplicates :=
        if (1 <? length exact_match)%nat
        then duplicates_in_es iss ++ rest
        else duplicates_in_es iss in
      {| missing_in_es := missing_in_es iss;
         duplicates_in_es := duplicates;
         time_drifts := time_drifts iss;
         index_mismatches :=
           if negb (index en_sub =? index es_match)
           then index_mismatches iss ++ [(en_sub, es_match)]
           else index_mismatches iss |}
  end.

Definition find_sync_issues (en_subs es_subs : list Subtitle) : issues :=
  let es_by_time := build_es_by_time es_subs in
  fold_left (issue_step es_by_time) en_subs
    {| missing_in_es := []; duplicates_in_es := [];
       time_drifts := []; index_mismatches := [] |}.

(** ** Auxiliary definitions

    Notions used to state and prove the properties, and sample tracks. *)

(** Both records are present at sequence number [j] and start at most
    500 ms apart. *)
Definition aligned_at (en_subs es_subs : list Subtitle) (j : Z) : Prop :=
  exists en_sub es_sub,
    by_index en_subs !! j = Some en_sub /\
    by_index es_subs !! j = Some es_sub /\
    Z.abs (timestamp_ms en_sub - timestamp_ms es_sub) <= 500.

(** The loop, from the two bounds that [max] returned. *)
Definition sync_loop (en_subs es_subs : list Subtitle) (hi : Z) : sync_state :=
  fold_left (sync_step (by_index en_subs) (by_index es_subs))
    (Py.range 1 (hi + 1)) {| last_good := 0; consecutive_good := 0 |}.

(** Invariant of the loop before iteration [i]: the counter is the length of
    a run of aligned sequence numbers that ends at [i - 1], and [last_good] is
    0 or ends a run of five. *)
Definition sync_inv (en_subs es_subs : list Subtitle) (i : Z)
    (st : sync_state) : Prop :=
  0 <= consecutive_good st <= i - 1 /\
  (forall j, i - consecutive_good st <= j < i -> aligned_at en_subs es_subs j) /\
  (last_good st = 0 \/
   5 <= last_good st /\
   forall j, last_good st - 4 <= j <= last_good st ->
             aligned_at en_subs es_subs j).

Definition verify_init : verify_state :=
  {| errors := []; warnings := []; good_count := 0 |}.

(** What one iteration adds to the three accumulators. *)
Definition verify_delta (en_by_index es_by_index : gmap Z Subtitle)
    (start_range i : Z) : verify_state :=
  verify_step en_by_index es_by_index start_range verify_init i.

Definition verify_add (st d : verify_state) : verify_state :=
  {| errors := errors st ++ errors d;
     warnings := warnings st ++ warnings d;
     good_count := good_count st + good_count d |}.

(** The candidate record at [i] starts before the candidate record at
    [i - 1], as the last test of the loop body reads it. *)
Definition out_of_order (C : gmap Z Subtitle) (start_range i : Z)
    (es_sub : Subtitle) : bool :=
  (start_range <? i) &&
  match C !! (i - 1) with
  | Some prev_es => timestamp_ms es_sub <? timestamp_ms prev_es
  | None => false
  end.

(** The records of a track that start at [t], in track order. *)
Definition records_at (subs : list Subtitle) (t : Z) : list Subtitle :=
  List.filter (fun c => timestamp_ms c =? t) subs.

Definition issues_init : issues :=
  {| missing_in_es := []; duplicates_in_es := [];
     time_drifts := []; index_mismatches := [] |}.

(** What the iteration for one reference record adds to the buckets. *)
Definition issue_delta (es_by_time : TimeDict.t) (en_sub : Subtitle) : issues :=
  issue_step es_by_time issues_init en_sub.

Definition issues_add (iss d : issues) : issues :=
  {| missing_in_es := missing_in_es iss ++ missing_in_es d;
     duplicates_in_es := duplicates_in_es iss ++ duplicates_in_es d;
     time_drifts := time_drifts iss ++ time_drifts d;
     index_mismatches := index_mismatches iss ++ index_mismatches d |}.

(** The distance that [min] minimises. *)
Definition distance (en_sub c : Subtitle) : Z :=
  Z.abs (timestamp_ms c - timestamp_ms en_sub).

(** The five ways the loop body can go for a reference record. *)
Inductive delta_shape (es_subs : list Subtitle) (en_sub : Subtitle)
    : issues -> Prop :=
| ShapeMissing :
    records_at es_subs (timestamp_ms en_sub) = [] ->
    close_matches_of (build_es_by_time es_subs) en_sub = [] ->
    delta_shape es_subs en_sub
      {| missing_in_es := [en_sub]; duplicates_in_es := [];
         time_drifts := []; index_mismatches := [] |}
| ShapeDrift c cs :
    records_at es_subs (timestamp_ms en_sub) = [] ->
    close_matches_of (build_es_by_time es_subs) en_sub = c :: cs ->
    200 < distance en_sub (Py.min_by (distance en_sub) c cs) ->
    delta_shape es_subs en_sub
      {| missing_in_es := []; duplicates_in_es := [];
         time_drifts := [(en_sub, Py.min_by (distance en_sub) c cs)];
         index_mismatches := [] |}
| ShapeNear c cs :
    records_at es_subs (timestamp_ms en_sub) = [] ->
    close_matches_of (build_es_by_time es_subs) en_sub = c :: cs ->
    distance en_sub (Py.min_by (distance en_sub) c cs) <= 200 ->
    delta_shape es_subs en_sub issues_init
| ShapeMismatch c rest :
    records_at es_subs (timestamp_ms en_sub) = c :: rest ->
    index en_sub <> index c ->
    delta_shape es_subs en_sub
      {| missing_in_es := []; duplicates_in_es := rest;
         time_drifts := []; index_mismatches := [(en_sub, c)] |}
| ShapeExact c rest :
    records_at es_subs (timestamp_ms en_sub) = c :: rest ->
    index en_sub = index c ->
    delta_shape es_subs en_sub
      {| missing_in_es := []; duplicates_in_es := rest;
         time_drifts := []; index_mismatches := [] |}.

#[global] Instance Subtitle_eq_dec : EqDecision Subtitle.
Proof. solve_decision. Defined.



Definition cue (i : Z) (clock : string) (ms : Z) : Subtitle :=
  {| index := i; start_time := clock; end_time := "00:59:59,000";
     text := "..."; timestamp_ms := ms |}.

(** Seven cues, one per second. *)
Definition track7 : list Subtitle :=
  [ cue 1 "00:00:01,000" 1000; cue 2 "00:00:02,000" 2000;
    cue 3 "00:00:03,000" 3000; cue 4 "00:00:04,000" 4000;
    cue 5 "00:00:05,000" 5000; cue 6 "00:00:06,000" 6000;
    cue 7 "00:00:07,000" 7000 ].

(** Two cues and a candidate track that is late by more than 500 ms. *)
Definition en_two : list Subtitle :=
  [ cue 1 "00:00:01,000" 1000; cue 2 "00:00:02,000" 2000 ].
Definition es_late : list Subtitle :=
  [ cue 1 "00:00:01,600" 1600; cue 2 "00:00:02,700" 2700 ].

(** The scenario of the classifier: one near match, one missing record. *)
Definition es_scenario : list Subtitle :=
  [ cue 1 "00:00:01,050" 1050; cue 2 "00:00:02,900" 2900 ].

(** A window 4..6 whose candidate #5 starts before candidate #4 although
    every difference to the reference is at most 50 ms. *)
Definition en_window : list Subtitle :=
  [ cue 4 "00:00:05,000" 5000; cue 5 "00:00:05,010" 5010;
    cue 6 "00:00:06,000" 6000 ].
Definition es_disordered : list Subtitle :=
  [ cue 4 "00:00:05,050" 5050; cue 5 "00:00:05,000" 5000;
    cue 6 "00:00:06,000" 6000 ].
(** The same reference without its record #5. *)
Definition en_gap : list Subtitle :=
  [ cue 4 "00:00:05,000" 5000; cue 6 "00:00:06,000" 6000 ].

(** A window 1..3 with differences of 0, 80 and 300 ms. *)
Definition en_three : list Subtitle :=
  [ cue 1 "00:00:01,000" 1000; cue 2 "00:00:02,000" 2000;
    cue 3 "00:00:03,000" 3000 ].
Definition es_three : list Subtitle :=
  [ cue 1 "00:00:01,000" 1000; cue 2 "00:00:02,080" 2080;
    cue 3 "00:00:03,300" 3300 ].
Definition diff_three (i : Z) : Z :=
  if i =? 1 then 0 else if i =? 2 then 80 else 300.

(** Two reference records and two candidate records at the same instant. *)
Definition en_same_time : list Subtitle :=
  [ cue 1 "00:00:01,000" 1000; cue 2 "00:00:01,000" 1000 ].
Definition es_same_time : list Subtitle :=
  [ cue 1 "00:00:01,000" 1000; cue 3 "00:00:01,000" 1000 ].

(** The blocks of a file, as every function that reads one computes them:
    [content = f.read().strip()], removal of a leading byte order mark,
    [content.split('\n\n')]. *)
Definition split_blocks (file_text : string) : list string :=
  let content := Py.strip file_text in
  let content :=
    if String.prefix BOM content
    then String.substring 3 (String.length content - 3) content
    else content in
  Py.split (LF ++ LF)%string content.

(** The record that the parser takes from a block, if it takes one. *)
Definition block_record (block : string) : option Subtitle :=
  if String.eqb (Py.strip block) EmptyString then None
  else
    let lines := Py.split LF (Py.strip block) in
    if (length lines <? 3)%nat then None
    else
      match parse_block lines with
      | inr (Some sub) => Some sub
      | _ => None
      end.

(** A text made of whitespace only. *)
Fixpoint all_space (s : string) : bool :=
  match s with
  | EmptyString => true
  | String c s' => Py.isspace c && all_space s'
  end.

(** [m] is the largest sequence number of a track. *)
Definition max_index (subs : list Subtitle) (m : Z) : Prop :=
  (exists s, In s subs /\ index s = m) /\
  forall s, In s subs -> index s <= m.

(** The five sequence numbers that end at [j] are all aligned. *)
Definition run_of_five (en_subs es_subs : list Subtitle) (j : Z) : Prop :=
  forall k, j - 4 <= k <= j -> aligned_at en_subs es_subs k.

(** Invariant of the boundary loop before iteration [i], complete version:
    the counter is the length of the longest run of aligned sequence numbers
    that ends at [i - 1] and starts at 1 or later, and [last_good] is the last
    sequence number below [i] that ends a counted run of five. *)
Definition sync_inv_exact (en_subs es_subs : list Subtitle) (i : Z)
    (st : sync_state) : Prop :=
  0 <= consecutive_good st <= i - 1 /\
  (forall j, i - consecutive_good st <= j < i -> aligned_at en_subs es_subs j) /\
  (consecutive_good st = i - 1 \/
   ~ aligned_at en_subs es_subs (i - 1 - consecutive_good st)) /\
  (last_good st = 0 \/
   5 <= last_good st < i /\ run_of_five en_subs es_subs (last_good st)) /\
  (forall j, 5 <= j < i -> run_of_five en_subs es_subs j -> j <= last_good st).


(** The errors of the range verifier other than the order error: each index
    of the window gives at most one of them. *)
Definition is_order_error (m : message) : bool :=
  match m with
  | ChronologicalOrder _ => true
  | _ => false
  end.

(** Good indices, warnings and errors other than order errors. *)
Definition verdicts (st : verify_state) : Z :=
  good_count st + Z.of_nat (length (warnings st)) +
  Z.of_nat (length (List.filter (fun m => negb (is_order_error m)) (errors st))).

(** No candidate record starts within 500 ms of [en_sub]. *)
Definition no_candidate_near (es_subs : list Subtitle) (en_sub : Subtitle)
    : bool :=
  forallb (fun c => 500 <? distance en_sub c) es_subs.


(** ** Block extraction ([rebuild_clean.py], [controlled_translate.py])

    The three functions below read a file into blocks as the parser does and
    look only at the first line of a block. What is written to the output
    file is returned as a text. *)

(** [except ValueError] *)
Definition handled_value (e : Py.exn) : bool :=
  match e with
  | Py.ValueError => true
  | _ => false
  end.

(** How an iteration of the loop of [extract_first_n_subtitles] ends. *)
Inductive flow : Type :=
| Next
| Break.

(** The body of [for block in blocks] in [extract_first_n_subtitles]. *)
Definition extract_step (n : Z) (good_blocks : list string) (block : string)
    : Py.result (list string * flow) :=
  if String.eqb (Py.strip block) EmptyString then Py.ret (good_blocks, Next)
  else
    let lines := Py.split LF (Py.strip block) in
    if (length lines <? 3)%nat then Py.ret (good_blocks, Next)
    else
      Py.try_except
        (let* line0 := Py.getitem lines 0 in
         let* index := Py.int line0 in
         if index <=? n
         then Py.ret (good_blocks ++ [Py.strip block], Next)
         else Py.ret (good_blocks, Break))
        handled_value
        (Py.ret (good_blocks, Next)).

Fixpoint extract_loop (n : Z) (good_blocks : list string)
    (blocks : list string) : Py.result (list string) :=
  match blocks with
  | [] => Py.ret good_blocks
  | block :: rest =>
      let* r := extract_step n good_blocks block in
      match r with
      | (good_blocks', Next) => extract_loop n good_blocks' rest
      | (good_blocks', Break) => Py.ret good_blocks'
      end
  end.

(** [extract_first_n_subtitles(filename, n, output_filename)]: the text
    written to the output file and the returned count. *)
Definition extract_first_n_subtitles (file_text : string) (n : Z)
    : Py.result (string * Z) :=
  let blocks := split_blocks file_text in
  let* good_blocks := extract_loop n [] blocks in
  let written :=
    (Py.join (LF ++ LF) good_blocks ++
     match good_blocks with [] => EmptyString | _ => LF end)%string in
  Py.ret (written, Z.of_nat (length good_blocks)).

(** The body of [for block in blocks] in [get_subtitle_block]: [Some b] when
    the function returns [b], [None] when the loop goes on. *)
Definition get_block_step (index : Z) (block : string)
    : Py.result (option string) :=
  if String.eqb (Py.strip block) EmptyString then Py.ret None
  else
    let lines := Py.split LF (Py.strip block) in
    if (length lines <? 3)%nat then Py.ret None
    else
      Py.try_except
        (let* line0 := Py.getitem lines 0 in
         let* block_index := Py.int line0 in
         if block_index =? index
         then Py.ret (Some (Py.strip block))
         else Py.ret None)
        handled_value
        (Py.ret None).

Fixpoint get_block_loop (index : Z) (blocks : list string)
    : Py.result (option string) :=
  match blocks with
  | [] => Py.ret None
  | block :: rest =>
      let* r := get_block_step index block in
      match r with
      | Some b => Py.ret (Some b)
      | None => get_block_loop index rest
      end
  end.

(** [get_subtitle_block(filename, index)]; [None] is Python's [None]. *)
Definition get_subtitle_block (file_text : string) (index : Z)
    : Py.result (option string) :=
  get_block_loop index (split_blocks file_text).

(** [sorted(l, key=key)]: a stable sort, here by insertion from the right. *)
Fixpoint insert_by {A} (key : A -> Z) (x : A) (l : list A) : list A :=
  match l with
  | [] => [x]
  | y :: l' =>
      if key x <=? key y then x :: y :: l' else y :: insert_by key x l'
  end.

Definition sorted_by {A} (key : A -> Z) (l : list A) : list A :=
  fold_right (insert_by key) [] l.

(** The body of [for block in all_blocks] in [get_subtitle_block_from_en]. *)
Definition collect_step (start_index end_index : Z)
    (blocks_to_translate : list (Z * string)) (block : string)
    : Py.result (list (Z * string)) :=
  if String.eqb (Py.strip block) EmptyString then Py.ret blocks_to_translate
  else
    let lines := Py.split LF (Py.strip block) in
    if (length lines <? 3)%nat then Py.ret blocks_to_translate
    else
      Py.try_except
        (let* line0 := Py.getitem lines 0 in
         let* index := Py.int line0 in
         if (start_index <=? index) && (index <=? end_index)
         then Py.ret (blocks_to_translate ++ [(index, Py.strip block)])
         else Py.ret blocks_to_translate)
        handled_value
        (Py.ret blocks_to_translate).

Fixpoint collect_loop (start_index end_index : Z)
    (blocks_to_translate : list (Z * string)) (blocks : list string)
    : Py.result (list (Z * string)) :=
  match blocks with
  | [] => Py.ret blocks_to_translate
  | block :: rest =>
      let* acc := collect_step start_index end_index blocks_to_translate block in
      collect_loop start_index end_index acc rest
  end.

(** [get_subtitle_block_from_en(start_index, end_index)], on the text of
    [en.srt]. *)
Definition get_subtitle_block_from_en (en_text : string)
    (start_index end_index : Z) : Py.result (list (Z * string)) :=
  let all_blocks := split_blocks en_text in
  let* blocks_to_translate :=
    collect_loop start_index end_index [] all_blocks in
  Py.ret (sorted_by fst blocks_to_translate).

(** The sequence number that the three loops above read from a block: the
    block is not blank, has at least three lines, and its first line is an
    integer. *)
Definition block_index (block : string) : option Z :=
  if String.eqb (Py.strip block) EmptyString then None
  else
    let lines := Py.split LF (Py.strip block) in
    if (length lines <? 3)%nat then None
    else
      match Py.int (nth 0 lines EmptyString) with
      | inr i => Some i
      | inl _ => None
      end.

(** A small file: three numbered blocks, not in order, and one block
    without a number. *)
Definition sample_file : string :=
  "2
00:00:02,000 --> 00:00:03,000
two

1
00:00:01,000 --> 00:00:01,500
one

intro
00:00:00,000 --> 00:00:00,500
no number

3
00:00:04,000 --> 00:00:05,000
three
".


(** ** Translation stub ([controlled_translate.py]) *)

(** [s.replace(old, new)] for a non-empty [old]: the occurrences of [old] are
    taken from left to right without overlap; [skip] counts the characters of
    an occurrence that is still being consumed. *)
Fixpoint replace_go (old new : string) (skip : nat) (s : string) : string :=
  match s with
  | EmptyString => EmptyString
  | String c s' =>
      match skip with
      | S k => replace_go old new k s'
      | O =>
          if String.prefix old s
          then (new ++ replace_go old new (String.length old - 1) s')%string
          else String c (replace_go old new O s')
      end
  end.

Definition replace_str (old new : string) (s : string) : string :=
  replace_go old new O s.

(** The dictionary [translations], in insertion order. *)
Definition translations : list (string * string) :=
  [ ("REEVES NARRATING", "REEVES NARRANDO");
    ("MALE NEWSCASTER", "LOCUTOR MASCULINO");
    ("FEMALE NEWSCASTER", "LOCUTORA FEMENINA");
    ("REPORTER", "REPORTERA");
    ("WOMAN", "MUJER");
    ("MAN", "HOMBRE");
    ("Silk Road", "Silk Road");
    ("Bitcoin", "Bitcoin");
    ("Dread Pirate Roberts", "Dread Pirate Roberts");
    ("FBI", "FBI");
    ("DEA", "DEA") ].

(** The dictionary [specific_translations], in insertion order. *)
Definition specific_translations : list (string * string) :=
  [ ("about the inner workings
of the Silk Road and,", "sobre el funcionamiento interno
del Silk Road y,");
    ("you know, his own identity,
of course.", "ya sabes, su propia identidad,
por supuesto.");
    ("every law enforcement agency
that you can imagine.", "toda agencia de aplicación de la ley
que puedas imaginar.");
    ("is a collaborative effort.", "es un esfuerzo colaborativo.");
    ("come from the community itself.", "vienen de la propia comunidad.");
    ("But he did tell me like
some interesting things", "Pero él sí me dijo como
algunas cosas interesantes");
    ("and the way that
the Silk Road works.", "y la forma en que
funciona el Silk Road.");
    ("of anything that's main purpose
is to harm innocent", "de cualquier cosa cuyo propósito principal
sea dañar inocentes");
    ("or that it was necessary", "o que fuera necesario");
    ("to harm innocent people
to bring to market.", "dañar gente inocente
para llevar al mercado.") ].

Section translate.

(** [str.lower], which follows the Unicode case mapping, is left open. *)
Variable lower : string -> string.

(** The loop over [specific_translations.items()]: [Some r] when the
    function returns [r] from inside the loop. *)
Fixpoint first_specific (table : list (string * string))
    (english_text : string) : option string :=
  match table with
  | [] => None
  | (eng, spa) :: rest =>
      if Py.contains (lower eng) (lower english_text)
      then Some (replace_str eng spa english_text)
      else first_specific rest english_text
  end.

(** [translate_text]. The text with the common terms replaced is computed
    and not used; the list [general_patterns] is never read. *)
Definition translate_text (english_text : string) : string :=
  match first_specific specific_translations english_text with
  | Some translated => translated
  | None =>
      let spanish_text :=
        fold_left (fun t item => replace_str (fst item) (snd item) t)
          translations english_text in
      ("[TRADUCIR]: " ++ english_text)%string
  end.

End translate.

Section append.

Variable lower : string -> string.

(** The body of [for i, (index, original_block) in enumerate(...)] in
    [append_translated_blocks]: what the iteration writes. [total] is
    [len(blocks_to_append)]. *)
Definition append_step (total : Z) (i : Z) (item : Z * string) : string :=
  let '(index, original_block) := item in
  let lines := Py.split LF original_block in
  if (3 <=? length lines)%nat then
    let text_lines := skipn 2 lines in
    let text := Py.join LF text_lines in
    let translated_text := translate_text lower text in
    let separator := if i <? total - 1 then LF else EmptyString in
    (nth 0 lines EmptyString ++ LF ++
     nth 1 lines EmptyString ++ LF ++
     translated_text ++ LF ++
     separator)%string
  else EmptyString.

Fixpoint append_loop (total : Z) (i : Z) (blocks : list (Z * string))
    : string :=
  match blocks with
  | [] => EmptyString
  | item :: rest =>
      (append_step total i item ++ append_loop total (i + 1) rest)%string
  end.

(** [append_translated_blocks(blocks_to_append)]: the text appended to
    [es.srt]. *)
Definition append_translated_blocks (blocks_to_append : list (Z * string))
    : string :=
  (LF ++ LF ++
   append_loop (Z.of_nat (length blocks_to_append)) 0 blocks_to_append)%string.

(** The three parts written for a block of at least three lines: its first
    line, its second line and the translation of the rest. *)
Definition translated_block (original_block : string) : string :=
  let lines := Py.split LF original_block in
  (nth 0 lines EmptyString ++ LF ++
   nth 1 lines EmptyString ++ LF ++
   translate_text lower (Py.join LF (skipn 2 lines)) ++ LF)%string.

End append.


(** Lower case on the ASCII letters, which is what [str.lower] does on an
    ASCII text. *)
Definition ascii_lower_char (c : ascii) : ascii :=
  let n := N_of_ascii c in
  if ((65 <=? n) && (n <=? 90))%N then ascii_of_N (n + 32) else c.

Fixpoint ascii_lower (s : string) : string :=
  match s with
  | EmptyString => EmptyString
  | String c s' => String (ascii_lower_char c) (ascii_lower s')
  end.


(** The track that the parser reads from [sample_file]. *)
Definition sample_track : list Subtitle :=
  [ mkSubtitle 2 "00:00:02,000" "00:00:03,000" "two" 2000;
    mkSubtitle 1 "00:00:01,000" "00:00:01,500" "one" 1000;
    mkSubtitle 3 "00:00:04,000" "00:00:05,000" "three" 4000 ].


(** * Examples *)

Example parse_timestamp_ex1 : parse_timestamp "00:00:01,050" = inr 1050.
Proof. vm_compute. reflexivity. Qed.

Example parse_timestamp_ex2 : parse_timestamp "01:02:03" = inl Py.ValueError.
Proof. vm_compute. reflexivity. Qed.

Example int_ex1 :
  map Py.int
    [" +1_000 "; "-07"; "1__0"; "_1"; "1_"; EmptyString; "+"; "0x10"; "12a"] =
  [inr 1000; inr (-7); inl Py.ValueError; inl Py.ValueError;
   inl Py.ValueError; inl Py.ValueError; inl Py.ValueError;
   inl Py.ValueError; inl Py.ValueError].
Proof. vm_compute. reflexivity. Qed.

Example parse_timestamp_ex3 :
  parse_timestamp "100000:00:00,000" = inr 360000000000.
Proof. vm_compute. reflexivity. Qed.

Example parse_timestamp_ex4 :
  parse_timestamp "00:00:01,050:7" = inl Py.ValueError.
Proof. vm_compute. reflexivity. Qed.

Example split_ex1 : Py.split " --> " "a --> b --> c" = ["a"; "b"; "c"].
Proof. vm_compute. reflexivity. Qed.

Example split_ex2 : Py.split "aa" "aaa" = [EmptyString; "a"].
Proof. vm_compute. reflexivity. Qed.

Example split_ex3 : Py.split ":" EmptyString = [EmptyString].
Proof. vm_compute. reflexivity. Qed.

Example contains_ex1 :
  (Py.contains "-->" "00:00:01,000-->00:00:02,000",
   Py.split " --> " "00:00:01,000-->00:00:02,000") =
  (true, ["00:00:01,000-->00:00:02,000"]).
Proof. vm_compute. reflexivity. Qed.

Example parse_ex2 :
  parse_srt_file (BOM ++ "x
00:00:01,000 --> 00:00:02,000
not a number

7
00:00:03,000-->00:00:04,000
no spaces around the arrow

8
00:00:05 --> 00:00:06,000
clock without milliseconds

9
only two lines

 10
00:00:07,500 --> 00:00:08,000
kept
")%string =
  inr [mkSubtitle 10 "00:00:07,500" "00:00:08,000" "kept" 7500].
Proof. vm_compute. reflexivity. Qed.

Example parse_ex1 :
  parse_srt_file "1
00:00:01,000 --> 00:00:02,000
Hello
there

2
00:00:03,000 00:00:04,000
World
" = inr [mkSubtitle 1 "00:00:01,000" "00:00:02,000" "Hello
there" 1000].
Proof. vm_compute. reflexivity. Qed.

Example sync_ex1 :
  find_last_good_sync track7 track7 = inr 7 /\
  find_last_good_sync track7 (firstn 4 track7) = inr 0 /\
  find_last_good_sync track7 [] = inl Py.ValueError.
Proof. repeat split; vm_compute; reflexivity. Qed.

(** * Properties *)

(** ** Loops over a range *)

Lemma range_snoc (a : Z) (n : nat) :
  Py.range a (a + Z.of_nat (S n)) =
  Py.range a (a + Z.of_nat n) ++ [a + Z.of_nat n].
Proof.
  unfold Py.range.
  replace (Z.to_nat (a + Z.of_nat (S n) - a)) with (S n) by lia.
  replace (Z.to_nat (a + Z.of_nat n - a)) with n by lia.
  rewrite seq_S, map_app. reflexivity.
Qed.

Lemma range_empty (a b : Z) : b <= a -> Py.range a b = [].
Proof.
  intros H. unfold Py.range. replace (Z.to_nat (b - a)) with O by lia.
  reflexivity.
Qed.

Lemma in_range (a b i : Z) : In i (Py.range a b) <-> a <= i < b.
Proof.
  unfold Py.range. rewrite in_map_iff. split.
  - intros (k & <- & Hk). apply in_seq in Hk. lia.
  - intros H. exists (Z.to_nat (i - a)). split; [lia|].
    apply in_seq. lia.
Qed.

(** A loop invariant [P i st], read "[st] is the state before iteration [i]",
    that holds at [a] and is kept by every iteration holds at the bound when
    the loop over [range(a, b)] ends. *)
Lemma range_fold_ind {St : Type} (step : St -> Z -> St) (P : Z -> St -> Prop)
    (a b : Z) (init : St) :
  a <= b ->
  P a init ->
  (forall i st, a <= i < b -> P i st -> P (i + 1) (step st i)) ->
  P b (fold_left step (Py.range a b) init).
Proof.
  intros Hab Hinit Hstep.
  assert (Hn : forall n : nat, a + Z.of_nat n <= b ->
            P (a + Z.of_nat n)
              (fold_left step (Py.range a (a + Z.of_nat n)) init)).
  { induction n as [|n IH]; intros Hle.
    - rewrite range_empty by lia. simpl.
      replace (a + Z.of_nat 0) with a by lia. exact Hinit.
    - rewrite range_snoc, fold_left_app. simpl.
      replace (a + Z.of_nat (S n)) with (a + Z.of_nat n + 1) by lia.
      apply Hstep; [lia|]. apply IH. lia. }
  specialize (Hn (Z.to_nat (b - a))).
  replace (a + Z.of_nat (Z.to_nat (b - a))) with b in Hn by lia.
  apply Hn. lia.
Qed.

(** ** The track index *)

Lemma by_index_snoc (subs : list Subtitle) (x : Subtitle) :
  by_index (subs ++ [x]) = <[index x := x]> (by_index subs).
Proof. unfold by_index. rewrite fold_left_app. reflexivity. Qed.

Lemma by_index_Some (subs : list Subtitle) (i : Z) (s : Subtitle) :
  by_index subs !! i = Some s -> In s subs /\ index s = i.
Proof.
  revert s. induction subs as [|x subs IH] using rev_ind; intros s.
  - unfold by_index. simpl. rewrite lookup_empty. discriminate.
  - rewrite by_index_snoc, lookup_insert. case_decide as Hi.
    + intros [= <-]. split; [apply in_or_app; right; left; reflexivity|exact Hi].
    + intros H. destruct (IH _ H) as [Hin Hidx]. split; [|exact Hidx].
      apply in_or_app. left. exact Hin.
Qed.

Lemma by_index_is_Some (subs : list Subtitle) (s : Subtitle) :
  In s subs -> is_Some (by_index subs !! index s).
Proof.
  induction subs as [|x subs IH] using rev_ind; intros Hin.
  - destruct Hin.
  - rewrite by_index_snoc, lookup_insert. case_decide as Hi; [eauto|].
    apply in_app_or in Hin. destruct Hin as [Hin|[->|[]]].
    + apply IH, Hin.
    + congruence.
Qed.

Lemma in_keys (d : gmap Z Subtitle) (k : Z) :
  In k (keys d) <-> is_Some (d !! k).
Proof.
  unfold keys. rewrite <- list_elem_of_In, list_elem_of_fmap. split.
  - intros ([k' s] & -> & H). apply elem_of_map_to_list in H. eauto.
  - intros [s H]. exists (k, s). split; [reflexivity|].
    apply elem_of_map_to_list. exact H.
Qed.

Lemma keys_by_index_nil : keys (by_index []) = [].
Proof. unfold keys, by_index. simpl. rewrite map_to_list_empty. reflexivity. Qed.

Lemma keys_by_index_nonempty (subs : list Subtitle) :
  subs <> [] -> keys (by_index subs) <> [].
Proof.
  destruct subs as [|s subs]; [congruence|]. intros _ Hnil.
  assert (Hin : In (index s) (keys (by_index (s :: subs)))).
  { apply in_keys, by_index_is_Some. left. reflexivity. }
  rewrite Hnil in Hin. destruct Hin.
Qed.

(** ** [max] *)

Lemma max_fold_spec (xs : list Z) (x : Z) :
  let m := fold_left (fun best y => if best <? y then y else best) xs x in
  In m (x :: xs) /\ forall y, In y (x :: xs) -> y <= m.
Proof.
  revert x. induction xs as [|y xs IH]; intros x; simpl.
  - split; [auto|]. intros y [->|[]]. lia.
  - specialize (IH (if x <? y then y else x)). simpl in IH.
    destruct IH as [Hin Hmax]. split.
    + destruct Hin as [Hin|Hin]; [|auto].
      rewrite <- Hin. destruct (x <? y); auto.
    + intros z Hz.
      assert (Hc : (if x <? y then y else x) <=
                   fold_left (fun best y0 => if best <? y0 then y0 else best) xs
                     (if x <? y then y else x)) by (apply Hmax; auto).
      destruct Hz as [<-|[<-|Hz]]; [| |apply Hmax; auto];
        destruct (Z.ltb_spec x y); lia.
Qed.

Lemma max_inr (l : list Z) (m : Z) :
  Py.max l = inr m -> In m l /\ forall y, In y l -> y <= m.
Proof.
  destruct l as [|x xs]; [discriminate|]. unfold Py.max, Py.ret.
  intros [= <-]. apply max_fold_spec.
Qed.

Lemma max_nonempty (l : list Z) : l <> [] -> exists m, Py.max l = inr m.
Proof. destruct l; [congruence|]. intros _. eexists. reflexivity. Qed.

(** ** The sync-boundary finder *)

Lemma find_last_good_sync_unfold (en_subs es_subs : list Subtitle) :
  find_last_good_sync en_subs es_subs =
  let* max_en := Py.max (keys (by_index en_subs)) in
  let* max_es := Py.max (keys (by_index es_subs)) in
  Py.ret (last_good (sync_loop en_subs es_subs (Z.min max_en max_es))).
Proof. reflexivity. Qed.

Lemma sync_step_inv (en_subs es_subs : list Subtitle) (i : Z)
    (st : sync_state) :
  1 <= i ->
  sync_inv en_subs es_subs i st ->
  sync_inv en_subs es_subs (i + 1)
    (sync_step (by_index en_subs) (by_index es_subs) st i).
Proof.
  intros Hi (Hc & Hrun & Hlast). unfold sync_step.
  destruct (by_index en_subs !! i) as [a|] eqn:Ha;
    [destruct (by_index es_subs !! i) as [b|] eqn:Hb|].
  - destruct (Z.leb_spec (Z.abs (timestamp_ms a - timestamp_ms b)) 500)
      as [Hd|Hd].
    + assert (Hrun' : forall j, i + 1 - (consecutive_good st + 1) <= j < i + 1 ->
                aligned_at en_subs es_subs j).
      { intros j Hj. destruct (Z.eq_dec j i) as [->|Hne].
        - exists a, b. auto.
        - apply Hrun. lia. }
      destruct (Z.leb_spec 5 (consecutive_good st + 1)) as [H5|H5];
        (split; [simpl; lia|split; [exact Hrun'|]]); simpl.
      * right. split; [lia|]. intros j Hj. apply Hrun'. lia.
      * exact Hlast.
    + split; [simpl; lia|split; [simpl; intros j Hj; lia|exact Hlast]].
  - split; [simpl; lia|split; [simpl; intros j Hj; lia|exact Hlast]].
  - split; [simpl; lia|split; [simpl; intros j Hj; lia|exact Hlast]].
Qed.

Lemma sync_loop_inv (en_subs es_subs : list Subtitle) (hi : Z) :
  let st := sync_loop en_subs es_subs hi in
  last_good st = 0 \/
  5 <= last_good st /\
  forall j, last_good st - 4 <= j <= last_good st ->
            aligned_at en_subs es_subs j.
Proof.
  unfold sync_loop. destruct (Z.le_gt_cases 1 (hi + 1)) as [Hle|Hgt].
  - apply (range_fold_ind _ (sync_inv en_subs es_subs)); [exact Hle| |].
    + split; [simpl; lia|split; [simpl; intros j Hj; lia|left; reflexivity]].
    + intros i st Hi Hinv. apply sync_step_inv; [lia|exact Hinv].
  - rewrite range_empty by lia. left. reflexivity.
Qed.

Lemma find_last_good_sync_nonempty (en_subs es_subs : list Subtitle) :
  en_subs <> [] -> es_subs <> [] ->
  exists max_en max_es,
    Py.max (keys (by_index en_subs)) = inr max_en /\
    Py.max (keys (by_index es_subs)) = inr max_es /\
    find_last_good_sync en_subs es_subs =
    inr (last_good (sync_loop en_subs es_subs (Z.min max_en max_es))).
Proof.
  intros Hen Hes.
  destruct (max_nonempty _ (keys_by_index_nonempty _ Hen)) as [m1 H1].
  destruct (max_nonempty _ (keys_by_index_nonempty _ Hes)) as [m2 H2].
  exists m1, m2. rewrite find_last_good_sync_unfold, H1, H2. auto.
Qed.

(** C8: with an empty reference track or an empty candidate track the
    boundary finder does not return 0: [max] over the empty index mapping
    raises [ValueError], which the function does not catch. *)
Theorem find_last_good_sync_empty_raises (en_subs es_subs : list Subtitle) :
  en_subs = [] \/ es_subs = [] ->
  find_last_good_sync en_subs es_subs = inl Py.ValueError.
Proof.
  intros H. rewrite find_last_good_sync_unfold.
  destruct H as [-> | ->]; rewrite keys_by_index_nil.
  - reflexivity.
  - destruct (keys (by_index en_subs)); reflexivity.
Qed.

Lemma find_last_good_sync_empty_raises_witness :
  find_last_good_sync [] [mkSubtitle 1 "00:00:01,000" "00:00:02,000" "a" 1000]
  = inl Py.ValueError.
Proof.
  apply (find_last_good_sync_empty_raises
           [] [mkSubtitle 1 "00:00:01,000" "00:00:02,000" "a" 1000]).
  left. reflexivity.
Defined.

(** C9: a returned boundary is 0, or it is some [L >= 5] such that at each of
    the sequence numbers [L-4 .. L] both tracks have a record and the two
    start at most 500 ms apart. *)
Theorem find_last_good_sync_boundary (en_subs es_subs : list Subtitle) (L : Z) :
  find_last_good_sync en_subs es_subs = inr L ->
  L = 0 \/
  5 <= L /\
  forall j, L - 4 <= j <= L ->
    exists en_sub es_sub,
      by_index en_subs !! j = Some en_sub /\
      by_index es_subs !! j = Some es_sub /\
      In en_sub en_subs /\ index en_sub = j /\
      In es_sub es_subs /\ index es_sub = j /\
      Z.abs (timestamp_ms en_sub - timestamp_ms es_sub) <= 500.
Proof.
  rewrite find_last_good_sync_unfold.
  destruct (Py.max (keys (by_index en_subs))) as [e|m1]; [discriminate|].
  destruct (Py.max (keys (by_index es_subs))) as [e|m2]; [discriminate|].
  simpl. intros [= <-].
  destruct (sync_loop_inv en_subs es_subs (Z.min m1 m2)) as [H0|[H5 Hrun]].
  - left. exact H0.
  - right. split; [exact H5|]. intros j Hj.
    destruct (Hrun j Hj) as (a & b & Ha & Hb & Hd).
    exists a, b. pose proof (by_index_Some _ _ _ Ha).
    pose proof (by_index_Some _ _ _ Hb). tauto.
Qed.

Lemma sync_loop_identical (subs : list Subtitle) (N : Z) :
  (forall i, 1 <= i <= N -> is_Some (by_index subs !! i)) ->
  0 <= N ->
  let st := sync_loop subs subs N in
  consecutive_good st = N /\ last_good st = if 5 <=? N then N else 0.
Proof.
  intros Hall HN. unfold sync_loop.
  pose proof (range_fold_ind (sync_step (by_index subs) (by_index subs))
           (fun i st => consecutive_good st = i - 1 /\
                        last_good st = if 5 <=? i - 1 then i - 1 else 0)
           1 (N + 1) {| last_good := 0; consecutive_good := 0 |}) as Hind.
  cbv beta in Hind. replace (N + 1 - 1) with N in Hind by lia.
  apply Hind; [lia| |].
  - simpl. split; reflexivity.
  - intros i st Hi [Hc Hl]. unfold sync_step.
    destruct (Hall i ltac:(lia)) as [s ->].
    rewrite Z.sub_diag. simpl Z.abs. simpl (0 <=? 500).
    cbv iota. rewrite Hc. replace (i - 1 + 1) with i by lia.
    replace (i + 1 - 1) with i by lia.
    destruct (Z.leb_spec 5 i) as [H5|H5]; simpl; [split; reflexivity|].
    split; [reflexivity|]. rewrite Hl.
    destruct (Z.leb_spec 5 (i - 1)); [lia|reflexivity].
Qed.

Lemma sync_loop_misaligned (en_subs es_subs : list Subtitle) (hi : Z) :
  (forall i en_sub es_sub,
     by_index en_subs !! i = Some en_sub ->
     by_index es_subs !! i = Some es_sub ->
     500 < Z.abs (timestamp_ms en_sub - timestamp_ms es_sub)) ->
  last_good (sync_loop en_subs es_subs hi) = 0.
Proof.
  intros Hbad. unfold sync_loop.
  destruct (Z.le_gt_cases 1 (hi + 1)) as [Hle|Hgt];
    [|rewrite range_empty by lia; reflexivity].
  apply (range_fold_ind _ (fun _ st => last_good st = 0)); [exact Hle|reflexivity|].
  intros i st _ Hl. unfold sync_step.
  destruct (by_index en_subs !! i) as [a|] eqn:Ha; [|exact Hl].
  destruct (by_index es_subs !! i) as [b|] eqn:Hb; [|exact Hl].
  specialize (Hbad i a b Ha Hb).
  destruct (Z.leb_spec (Z.abs (timestamp_ms a - timestamp_ms b)) 500);
    [lia|exact Hl].
Qed.

(** C4, as the code has it: a track whose sequence numbers are exactly
    [1 .. N], [N >= 5], compared with itself gives the boundary [N]; and two
    non-empty tracks whose records start more than 500 ms apart at every
    sequence number they share give the boundary 0. *)
Theorem find_last_good_sync_identical_or_misaligned :
  (forall (subs : list Subtitle) (N : Z),
     5 <= N ->
     (forall i, (exists s, In s subs /\ index s = i) <-> 1 <= i <= N) ->
     find_last_good_sync subs subs = inr N) /\
  (forall en_subs es_subs : list Subtitle,
     en_subs <> [] -> es_subs <> [] ->
     (forall i en_sub es_sub,
        by_index en_subs !! i = Some en_sub ->
        by_index es_subs !! i = Some es_sub ->
        500 < Z.abs (timestamp_ms en_sub - timestamp_ms es_sub)) ->
     find_last_good_sync en_subs es_subs = inr 0).
Proof.
  split.
  - intros subs N HN Hkeys.
    assert (Hne : subs <> []).
    { destruct (proj2 (Hkeys 1) ltac:(lia)) as (s & Hs & _).
      intros ->. destruct Hs. }
    destruct (find_last_good_sync_nonempty subs subs Hne Hne)
      as (m1 & m2 & H1 & H2 & ->).
    assert (m1 = m2) by congruence. subst m2. rewrite Z.min_id.
    assert (Hm : m1 = N).
    { destruct (max_inr _ _ H1) as [Hin Hmax].
      apply in_keys in Hin. destruct Hin as [s Hs].
      apply by_index_Some in Hs.
      assert (1 <= m1 <= N) by (apply Hkeys; exists s; exact Hs).
      destruct (proj2 (Hkeys N) ltac:(lia)) as (sN & HsN & HiN).
      assert (N <= m1).
      { apply Hmax, in_keys. rewrite <- HiN. apply by_index_is_Some, HsN. }
      lia. }
    subst m1. f_equal.
    destruct (sync_loop_identical subs N) as [_ Hl]; [|lia|].
    + intros i Hi. destruct (proj2 (Hkeys i) Hi) as (s & Hs & <-).
      apply by_index_is_Some, Hs.
    + rewrite Hl. destruct (Z.leb_spec 5 N); [reflexivity|lia].
  - intros en_subs es_subs Hen Hes Hbad.
    destruct (find_last_good_sync_nonempty en_subs es_subs Hen Hes)
      as (m1 & m2 & _ & _ & ->).
    f_equal. apply sync_loop_misaligned, Hbad.
Qed.

(** C4 as stated fails on empty tracks: no sequence number is shared, yet the
    function raises instead of returning 0. *)
Lemma find_last_good_sync_misaligned_counterexample :
  ~ (forall en_subs es_subs : list Subtitle,
       (forall i en_sub es_sub,
          by_index en_subs !! i = Some en_sub ->
          by_index es_subs !! i = Some es_sub ->
          500 < Z.abs (timestamp_ms en_sub - timestamp_ms es_sub)) ->
       find_last_good_sync en_subs es_subs = inr 0).
Proof.
  intros H. specialize (H [] []).
  assert (Hraise : find_last_good_sync [] [] = inl Py.ValueError)
    by (vm_compute; reflexivity).
  rewrite Hraise in H. discriminate H.
  intros i a b Ha. unfold by_index in Ha. simpl in Ha.
  rewrite lookup_empty in Ha. discriminate Ha.
Qed.

(** ** The range verifier *)

Section verify_fold.
Context (E C : gmap Z Subtitle) (start_range : Z).

Lemma verify_step_add (st : verify_state) (i : Z) :
  verify_step E C start_range st i =
  verify_add st (verify_delta E C start_range i).
Proof.
  unfold verify_delta, verify_step, verify_add.
  destruct (E !! i) as [a|]; [destruct (C !! i) as [b|]|]; simpl;
    [|rewrite ?app_nil_r, ?Z.add_0_r; reflexivity..].
  destruct (100 <? _); [|destruct (50 <? _)];
    (destruct (start_range <? i); [destruct (C !! (i - 1)) as [p|];
       [destruct (timestamp_ms b <? timestamp_ms p)|]|]);
    simpl; rewrite <- ?app_assoc, ?app_nil_r, ?Z.add_0_r; reflexivity.
Qed.

Lemma verify_fold_errors (l : list Z) (st : verify_state) :
  errors (fold_left (verify_step E C start_range) l st) =
  errors st ++ flat_map (fun i => errors (verify_delta E C start_range i)) l.
Proof.
  revert st. induction l as [|i l IH]; intros st; simpl.
  - rewrite app_nil_r. reflexivity.
  - rewrite IH, verify_step_add. simpl. rewrite app_assoc. reflexivity.
Qed.

Lemma verify_fold_warnings (l : list Z) (st : verify_state) :
  warnings (fold_left (verify_step E C start_range) l st) =
  warnings st ++ flat_map (fun i => warnings (verify_delta E C start_range i)) l.
Proof.
  revert st. induction l as [|i l IH]; intros st; simpl.
  - rewrite app_nil_r. reflexivity.
  - rewrite IH, verify_step_add. simpl. rewrite app_assoc. reflexivity.
Qed.

Lemma verify_fold_good (l : list Z) (st : verify_state) :
  good_count (fold_left (verify_step E C start_range) l st) =
  good_count st + fold_right Z.add 0 (map (fun i => good_count (verify_delta E C start_range i)) l).
Proof.
  revert st. induction l as [|i l IH]; intros st; simpl.
  - lia.
  - rewrite IH, verify_step_add. simpl. lia.
Qed.
End verify_fold.

Lemma in_errors (en_subs es_subs : list Subtitle) (start_range end_range : Z)
    (m : message) :
  In m (errors (verify_range_loop en_subs es_subs start_range end_range)) <->
  exists i, start_range <= i <= end_range /\
    In m (errors (verify_delta (by_index en_subs) (by_index es_subs)
                    start_range i)).
Proof.
  unfold verify_range_loop. rewrite verify_fold_errors. simpl.
  rewrite in_flat_map. split; intros (i & Hi & Hm); exists i; split; auto.
  - apply in_range in Hi. lia.
  - apply in_range. lia.
Qed.

Lemma in_warnings (en_subs es_subs : list Subtitle) (start_range end_range : Z)
    (m : message) :
  In m (warnings (verify_range_loop en_subs es_subs start_range end_range)) <->
  exists i, start_range <= i <= end_range /\
    In m (warnings (verify_delta (by_index en_subs) (by_index es_subs)
                      start_range i)).
Proof.
  unfold verify_range_loop. rewrite verify_fold_warnings. simpl.
  rewrite in_flat_map. split; intros (i & Hi & Hm); exists i; split; auto.
  - apply in_range in Hi. lia.
  - apply in_range. lia.
Qed.

(** The iteration at an index where both records are present. *)
Lemma verify_delta_present (E C : gmap Z Subtitle) (start_range i : Z)
    (a b : Subtitle) :
  E !! i = Some a -> C !! i = Some b ->
  let d := Z.abs (timestamp_ms a - timestamp_ms b) in
  verify_delta E C start_range i =
  {| errors := (if 100 <? d then [Desync i d] else []) ++
               (if out_of_order C start_range i b
                then [ChronologicalOrder i] else []);
     warnings := if negb (100 <? d) && (50 <? d)
                 then [MinorDeviation i d] else [];
     good_count := if d <=? 50 then 1 else 0 |}.
Proof.
  intros Ha Hb d. unfold verify_delta, verify_step, out_of_order.
  rewrite Ha, Hb. fold d.
  destruct (Z.ltb_spec 100 d); [|destruct (Z.ltb_spec 50 d)];
    destruct (Z.leb_spec d 50); try lia;
    (destruct (start_range <? i); [destruct (C !! (i - 1)) as [p|];
       [destruct (timestamp_ms b <? timestamp_ms p)|]|]);
    reflexivity.
Qed.

Lemma verify_delta_no_reference (E C : gmap Z Subtitle) (start_range i : Z) :
  E !! i = None ->
  verify_delta E C start_range i =
  {| errors := [MissingReference i]; warnings := []; good_count := 0 |}.
Proof. intros H. unfold verify_delta, verify_step. rewrite H. reflexivity. Qed.

Lemma verify_delta_no_candidate (E C : gmap Z Subtitle) (start_range i : Z)
    (a : Subtitle) :
  E !! i = Some a -> C !! i = None ->
  verify_delta E C start_range i =
  {| errors := [MissingCandidate i]; warnings := []; good_count := 0 |}.
Proof.
  intros Ha Hb. unfold verify_delta, verify_step. rewrite Ha, Hb. reflexivity.
Qed.

(** At an index without a reference record the iteration ends at the
    missing-reference error: the order of the candidate records is not
    tested there. *)
Lemma order_not_tested_without_reference (en_subs es_subs : list Subtitle)
    (start_range end_range i : Z) :
  by_index en_subs !! i = None ->
  ~ In (ChronologicalOrder i)
       (errors (verify_range_loop en_subs es_subs start_range end_range)).
Proof.
  intros Hnone Hin. apply in_errors in Hin. destruct Hin as (j & _ & Hin).
  destruct (by_index en_subs !! j) as [a|] eqn:Ha.
  - destruct (by_index es_subs !! j) as [b|] eqn:Hb.
    + rewrite (verify_delta_present _ _ _ _ _ _ Ha Hb) in Hin. simpl in Hin.
      apply in_app_or in Hin. destruct Hin as [Hin|Hin].
      * destruct (100 <? _); [|destruct Hin].
        destruct Hin as [Hin|[]]. discriminate Hin.
      * destruct (out_of_order _ _ _ _); [|destruct Hin].
        destruct Hin as [[= ->]|[]]. congruence.
    + rewrite (verify_delta_no_candidate _ _ _ _ _ Ha Hb) in Hin.
      destruct Hin as [Hin|[]]. discriminate Hin.
  - rewrite (verify_delta_no_reference _ _ _ _ Ha) in Hin.
    destruct Hin as [Hin|[]]. discriminate Hin.
Qed.

Lemma verify_range_sync_true (en_subs es_subs : list Subtitle)
    (start_range end_range : Z) :
  verify_range_sync en_subs es_subs start_range end_range = true <->
  errors (verify_range_loop en_subs es_subs start_range end_range) = [].
Proof.
  unfold verify_range_sync.
  destruct (errors (verify_range_loop en_subs es_subs start_range end_range));
    simpl; split; congruence.
Qed.

Lemma chronological_order_reported (en_subs es_subs : list Subtitle)
    (start_range end_range i : Z) (en_sub es_sub prev_es : Subtitle) :
  start_range < i <= end_range ->
  by_index en_subs !! i = Some en_sub ->
  by_index es_subs !! i = Some es_sub ->
  by_index es_subs !! (i - 1) = Some prev_es ->
  timestamp_ms es_sub < timestamp_ms prev_es ->
  In (ChronologicalOrder i)
     (errors (verify_range_loop en_subs es_subs start_range end_range)).
Proof.
  intros Hi Hen Hes Hprev Hlt.
  apply in_errors. exists i. split; [lia|].
  rewrite (verify_delta_present _ _ _ _ _ _ Hen Hes). simpl.
  apply in_or_app. right. unfold out_of_order. rewrite Hprev.
  destruct (Z.ltb_spec start_range i); [|lia].
  destruct (Z.ltb_spec (timestamp_ms es_sub) (timestamp_ms prev_es)); [|lia].
  left. reflexivity.
Qed.

(** C3, as the code has it: inside the window and after its first index, a
    candidate record that starts before the candidate record of the previous
    sequence number is reported as a chronological-order error whenever the
    reference record of that index is present as well, whatever the time
    differences are; the range is then not clean. *)
Theorem verify_range_chronological_order (en_subs es_subs : list Subtitle)
    (start_range end_range i : Z) (en_sub es_sub prev_es : Subtitle) :
  start_range < i <= end_range ->
  by_index en_subs !! i = Some en_sub ->
  by_index es_subs !! i = Some es_sub ->
  by_index es_subs !! (i - 1) = Some prev_es ->
  timestamp_ms es_sub < timestamp_ms prev_es ->
  In (ChronologicalOrder i)
     (errors (verify_range_loop en_subs es_subs start_range end_range)) /\
  verify_range_sync en_subs es_subs start_range end_range = false.
Proof.
  intros Hi Hen Hes Hprev Hlt.
  pose proof (chronological_order_reported _ _ _ _ _ _ _ _
                Hi Hen Hes Hprev Hlt) as Hin.
  split; [exact Hin|].
  destruct (verify_range_sync en_subs es_subs start_range end_range) eqn:Hv;
    [|reflexivity].
  apply verify_range_sync_true in Hv. rewrite Hv in Hin. destruct Hin.
Qed.

(** C5: in a window where both records are present at every index, a start
    difference above 100 ms is a desync error, one above 50 ms and at most
    100 ms is a minor-deviation warning, one of at most 50 ms is counted as
    good; the function returns [true] exactly when no error was recorded, which
    here means that no difference exceeds 100 ms and no candidate record starts
    before its predecessor, warnings or not. *)
Theorem verify_range_sync_classification (en_subs es_subs : list Subtitle)
    (start_range end_range : Z) (d : Z -> Z) :
  (forall i, start_range <= i <= end_range ->
     exists en_sub es_sub,
       by_index en_subs !! i = Some en_sub /\
       by_index es_subs !! i = Some es_sub /\
       d i = Z.abs (timestamp_ms en_sub - timestamp_ms es_sub)) ->
  let st := verify_range_loop en_subs es_subs start_range end_range in
  (forall i, start_range <= i <= end_range ->
     (100 < d i ->
        In (Desync i (d i)) (errors st) /\
        forall x, ~ In (MinorDeviation i x) (warnings st)) /\
     (50 < d i <= 100 ->
        In (MinorDeviation i (d i)) (warnings st) /\
        forall x, ~ In (Desync i x) (errors st)) /\
     (d i <= 50 ->
        (forall x, ~ In (Desync i x) (errors st)) /\
        forall x, ~ In (MinorDeviation i x) (warnings st))) /\
  good_count st =
    Z.of_nat (length (List.filter (fun i => d i <=? 50)
                        (Py.range start_range (end_range + 1)))) /\
  (verify_range_sync en_subs es_subs start_range end_range = true <->
   errors st = []) /\
  (verify_range_sync en_subs es_subs start_range end_range = true <->
   (forall i, start_range <= i <= end_range -> d i <= 100) /\
   (forall i es_sub prev_es,
      start_range < i <= end_range ->
      by_index es_subs !! i = Some es_sub ->
      by_index es_subs !! (i - 1) = Some prev_es ->
      timestamp_ms prev_es <= timestamp_ms es_sub)).
Proof.
  intros Hall st.
  set (E := by_index en_subs) in *. set (C := by_index es_subs) in *.
  assert (Hdelta : forall i, start_range <= i <= end_range ->
            exists b, C !! i = Some b /\
              verify_delta E C start_range i =
              {| errors := (if 100 <? d i then [Desync i (d i)] else []) ++
                           (if out_of_order C start_range i b
                            then [ChronologicalOrder i] else []);
                 warnings := if negb (100 <? d i) && (50 <? d i)
                             then [MinorDeviation i (d i)] else [];
                 good_count := if d i <=? 50 then 1 else 0 |}).
  { intros i Hi. destruct (Hall i Hi) as (a & b & Ha & Hb & Hd).
    exists b. split; [exact Hb|]. rewrite Hd.
    apply verify_delta_present; assumption. }
  assert (Hdesync : forall i x, In (Desync i x) (errors st) ->
            start_range <= i <= end_range /\ 100 < d i /\ x = d i).
  { intros i x Hin. apply in_errors in Hin. destruct Hin as (j & Hj & Hin).
    destruct (Hdelta j Hj) as (b & _ & Heq). fold E C in Hin.
    rewrite Heq in Hin. simpl in Hin.
    apply in_app_or in Hin. destruct Hin as [Hin|Hin].
    - destruct (Z.ltb_spec 100 (d j)); [|destruct Hin].
      destruct Hin as [[= <- <-]|[]]. auto.
    - destruct (out_of_order C start_range j b); [|destruct Hin].
      destruct Hin as [Hin|[]]. discriminate Hin. }
  assert (Hminor : forall i x, In (MinorDeviation i x) (warnings st) ->
            start_range <= i <= end_range /\ 50 < d i <= 100 /\ x = d i).
  { intros i x Hin. apply in_warnings in Hin. destruct Hin as (j & Hj & Hin).
    destruct (Hdelta j Hj) as (b & _ & Heq). fold E C in Hin.
    rewrite Heq in Hin. simpl in Hin.
    destruct (Z.ltb_spec 100 (d j)); [destruct Hin|].
    destruct (Z.ltb_spec 50 (d j)); [|destruct Hin].
    destruct Hin as [[= <- <-]|[]]. split; [exact Hj|]. split; [lia|reflexivity]. }
  split; [|split; [|split]].
  - intros i Hi. destruct (Hdelta i Hi) as (b & _ & Heq). split; [|split].
    + intros Hd. split.
      * apply in_errors. exists i. split; [exact Hi|]. fold E C.
        rewrite Heq. simpl. apply in_or_app. left.
        destruct (Z.ltb_spec 100 (d i)); [left; reflexivity|lia].
      * intros x Hx. apply Hminor in Hx. lia.
    + intros Hd. split.
      * apply in_warnings. exists i. split; [exact Hi|]. fold E C.
        rewrite Heq. simpl.
        destruct (Z.ltb_spec 100 (d i)); [lia|].
        destruct (Z.ltb_spec 50 (d i)); [left; reflexivity|lia].
      * intros x Hx. apply Hdesync in Hx. lia.
    + intros Hd. split; intros x Hx.
      * apply Hdesync in Hx. lia.
      * apply Hminor in Hx. lia.
  - unfold st, verify_range_loop. rewrite verify_fold_good. fold E C.
    simpl good_count. rewrite Z.add_0_l.
    assert (Hl : forall i, In i (Py.range start_range (end_range + 1)) ->
              start_range <= i <= end_range).
    { intros i Hin. apply in_range in Hin. lia. }
    revert Hl. generalize (Py.range start_range (end_range + 1)) as l.
    induction l as [|i l IH]; intros Hl; [reflexivity|].
    simpl map. simpl fold_right. simpl List.filter.
    destruct (Hdelta i (Hl i (or_introl eq_refl))) as (b & _ & Heq).
    rewrite Heq. simpl good_count.
    rewrite IH by (intros j Hj; apply Hl; right; exact Hj).
    destruct (d i <=? 50); simpl length; lia.
  - apply verify_range_sync_true.
  - rewrite verify_range_sync_true. fold st. split.
    + intros Hnil. split.
      * intros i Hi. destruct (Z.le_gt_cases (d i) 100) as [Hle|Hgt]; [exact Hle|].
        exfalso. destruct (Hdelta i Hi) as (b & _ & Heq).
        assert (Hin : In (Desync i (d i)) (errors st)).
        { apply in_errors. exists i. split; [exact Hi|]. fold E C.
          rewrite Heq. simpl. apply in_or_app. left.
          destruct (Z.ltb_spec 100 (d i)); [left; reflexivity|lia]. }
        rewrite Hnil in Hin. destruct Hin.
      * intros i c p Hi Hc Hp.
        destruct (Z.le_gt_cases (timestamp_ms p) (timestamp_ms c)) as [Hle|Hgt];
          [exact Hle|].
        exfalso. destruct (Hall i ltac:(lia)) as (a & b & Ha & Hb & _).
        fold C in Hb. assert (b = c) by congruence. subst b.
        pose proof (chronological_order_reported en_subs es_subs
                      start_range end_range i a c p Hi Ha Hc Hp ltac:(lia))
          as Hin.
        fold st in Hin. rewrite Hnil in Hin. destruct Hin.
    + intros [Hdiff Horder].
      destruct (errors st) as [|m ms] eqn:Herr; [reflexivity|].
      exfalso.
      assert (Hin : In m (errors st)) by (rewrite Herr; left; reflexivity).
      apply in_errors in Hin. destruct Hin as (j & Hj & Hin).
      destruct (Hdelta j Hj) as (b & Hb & Heq). fold E C in Hin.
      rewrite Heq in Hin. simpl in Hin.
      apply in_app_or in Hin. destruct Hin as [Hin|Hin].
      * specialize (Hdiff j Hj).
        destruct (Z.ltb_spec 100 (d j)); [lia|destruct Hin].
      * unfold out_of_order in Hin.
        destruct (Z.ltb_spec start_range j); [|destruct Hin].
        destruct (C !! (j - 1)) as [p|] eqn:Hp; [|destruct Hin].
        specialize (Horder j b p ltac:(lia) Hb Hp).
        destruct (Z.ltb_spec (timestamp_ms b) (timestamp_ms p));
          [lia|destruct Hin].
Qed.

(** ** The timestamp dictionary of the classifier *)

Lemma get_add_new (k k' : Z) (v : list Subtitle) (d : TimeDict.t) :
  TimeDict.get k (TimeDict.add_new k' v d) =
  match TimeDict.get k d with
  | Some x => Some x
  | None => if k' =? k then Some v else None
  end.
Proof.
  unfold TimeDict.add_new. induction d as [|[k0 v0] d IH]; simpl.
  - reflexivity.
  - destruct (k0 =? k); [reflexivity|exact IH].
Qed.

Lemma get_append_at (k k' : Z) (x : Subtitle) (d : TimeDict.t) :
  TimeDict.get k (TimeDict.append_at k' x d) =
  if k' =? k then (fun v => v ++ [x]) <$> TimeDict.get k d
  else TimeDict.get k d.
Proof.
  induction d as [|[k0 v0] d IH]; simpl.
  - destruct (k' =? k); reflexivity.
  - destruct (Z.eqb_spec k0 k') as [->|Hne]; simpl.
    + destruct (Z.eqb_spec k' k); reflexivity.
    + destruct (Z.eqb_spec k0 k) as [->|Hne'].
      * destruct (Z.eqb_spec k' k); [congruence|reflexivity].
      * exact IH.
Qed.

Lemma keys_append_at (k : Z) (x : Subtitle) (d : TimeDict.t) :
  map fst (TimeDict.append_at k x d) = map fst d.
Proof.
  induction d as [|[k0 v0] d IH]; simpl; [reflexivity|].
  destruct (k0 =? k); simpl; [reflexivity|]. rewrite IH. reflexivity.
Qed.

Lemma get_None_keys (k : Z) (d : TimeDict.t) :
  TimeDict.get k d = None -> ~ In k (map fst d).
Proof.
  induction d as [|[k0 v0] d IH]; simpl; [tauto|].
  destruct (Z.eqb_spec k0 k); [discriminate|].
  intros H [Heq|Hin]; [congruence|]. exact (IH H Hin).
Qed.

Lemma get_Some_In (k : Z) (v : list Subtitle) (d : TimeDict.t) :
  TimeDict.get k d = Some v -> In (k, v) d.
Proof.
  induction d as [|[k0 v0] d IH]; simpl; [discriminate|].
  destruct (Z.eqb_spec k0 k) as [->|Hne].
  - intros [= ->]. left. reflexivity.
  - intros H. right. exact (IH H).
Qed.

Lemma In_get_Some (k : Z) (v : list Subtitle) (d : TimeDict.t) :
  NoDup (map fst d) -> In (k, v) d -> TimeDict.get k d = Some v.
Proof.
  induction d as [|[k0 v0] d IH]; simpl; [tauto|].
  intros Hnd [Heq|Hin].
  - injection Heq as -> ->. rewrite Z.eqb_refl. reflexivity.
  - apply NoDup_cons in Hnd. destruct Hnd as [Hnotin Hnd].
    destruct (Z.eqb_spec k0 k) as [->|Hne].
    + exfalso. apply Hnotin. apply list_elem_of_In, in_map_iff.
      exists (k, v). auto.
    + exact (IH Hnd Hin).
Qed.

Lemma build_es_by_time_snoc (es_subs : list Subtitle) (x : Subtitle) :
  build_es_by_time (es_subs ++ [x]) =
  by_time_step (build_es_by_time es_subs) x.
Proof. unfold build_es_by_time. rewrite fold_left_app. reflexivity. Qed.

Lemma records_at_snoc (es_subs : list Subtitle) (x : Subtitle) (t : Z) :
  records_at (es_subs ++ [x]) t =
  records_at es_subs t ++ (if timestamp_ms x =? t then [x] else []).
Proof. unfold records_at. rewrite List.filter_app. reflexivity. Qed.

(** [es_by_time.get(t)] is the list of the candidates at [t] in track order,
    and the key [t] is absent when there is none. *)
Lemma get_build_es_by_time (es_subs : list Subtitle) (t : Z) :
  TimeDict.get t (build_es_by_time es_subs) =
  match records_at es_subs t with
  | [] => None
  | l => Some l
  end.
Proof.
  induction es_subs as [|x es_subs IH] using rev_ind; [reflexivity|].
  rewrite build_es_by_time_snoc, records_at_snoc. unfold by_time_step.
  rewrite get_append_at.
  unfold TimeDict.mem.
  destruct (TimeDict.get (timestamp_ms x) (build_es_by_time es_subs))
    as [v|] eqn:Hx; simpl negb; cbv iota.
  - destruct (Z.eqb_spec (timestamp_ms x) t) as [<-|Hne].
    + rewrite IH. destruct (records_at es_subs _); [congruence|reflexivity].
    + rewrite IH, app_nil_r. reflexivity.
  - rewrite get_add_new.
    destruct (Z.eqb_spec (timestamp_ms x) t) as [<-|Hne].
    + rewrite Hx. rewrite IH in Hx.
      destruct (records_at es_subs _); [reflexivity|discriminate].
    + rewrite IH, app_nil_r.
      destruct (records_at es_subs t); reflexivity.
Qed.

Lemma build_es_by_time_NoDup (es_subs : list Subtitle) :
  NoDup (map fst (build_es_by_time es_subs)).
Proof.
  induction es_subs as [|x es_subs IH] using rev_ind; [constructor|].
  rewrite build_es_by_time_snoc. unfold by_time_step.
  rewrite keys_append_at. unfold TimeDict.mem.
  destruct (TimeDict.get (timestamp_ms x) (build_es_by_time es_subs))
    eqn:Hx; simpl; [exact IH|].
  unfold TimeDict.add_new. rewrite map_app. simpl.
  apply NoDup_app. split; [exact IH|]. split.
  - intros k Hk Hk'. apply list_elem_of_In in Hk, Hk'.
    destruct Hk' as [<-|[]]. exact (get_None_keys _ _ Hx Hk).
  - apply NoDup_singleton.
Qed.

Lemma in_records_at (es_subs : list Subtitle) (t : Z) (c : Subtitle) :
  In c (records_at es_subs t) <-> In c es_subs /\ timestamp_ms c = t.
Proof.
  unfold records_at. rewrite List.filter_In, Z.eqb_eq. reflexivity.
Qed.

(** The items of [es_by_time] are the non-empty groups of candidates. *)
Lemma build_es_by_time_items (es_subs : list Subtitle) (k : Z)
    (v : list Subtitle) :
  In (k, v) (build_es_by_time es_subs) <->
  v = records_at es_subs k /\ v <> [].
Proof.
  split.
  - intros Hin. apply In_get_Some in Hin; [|apply build_es_by_time_NoDup].
    rewrite get_build_es_by_time in Hin.
    destruct (records_at es_subs k); [discriminate|].
    injection Hin as <-. split; [reflexivity|discriminate].
  - intros [-> Hne]. apply get_Some_In. rewrite get_build_es_by_time.
    destruct (records_at es_subs k); [congruence|reflexivity].
Qed.

Lemma close_matches_flat_map (d : TimeDict.t) (en_sub : Subtitle) :
  close_matches_of d en_sub =
  flat_map (fun item : Z * list Subtitle =>
              if Z.abs (fst item - timestamp_ms en_sub) <=? 500
              then snd item else []) d.
Proof.
  unfold close_matches_of.
  set (f := fun item : Z * list Subtitle =>
              if Z.abs (fst item - timestamp_ms en_sub) <=? 500
              then snd item else []).
  enough (H : forall acc,
             fold_left
               (fun close_matches item =>
                  let '(es_time, es_list) := item in
                  if Z.abs (es_time - timestamp_ms en_sub) <=? 500
                  then close_matches ++ es_list
                  else close_matches) d acc = acc ++ flat_map f d)
    by apply H.
  induction d as [|[k v] d IH]; intros acc; simpl.
  - rewrite app_nil_r. reflexivity.
  - rewrite IH. unfold f at 2. simpl.
    destruct (Z.abs (k - timestamp_ms en_sub) <=? 500).
    + rewrite app_assoc. reflexivity.
    + reflexivity.
Qed.

(** [close_matches] holds exactly the candidates within 500 ms. *)
Lemma in_close_matches (es_subs : list Subtitle) (en_sub c : Subtitle) :
  In c (close_matches_of (build_es_by_time es_subs) en_sub) <->
  In c es_subs /\ Z.abs (timestamp_ms c - timestamp_ms en_sub) <= 500.
Proof.
  rewrite close_matches_flat_map, in_flat_map. split.
  - intros ([k v] & Hitem & Hc). simpl in Hc.
    apply build_es_by_time_items in Hitem. destruct Hitem as [-> _].
    destruct (Z.leb_spec (Z.abs (k - timestamp_ms en_sub)) 500);
      [|destruct Hc].
    apply in_records_at in Hc. destruct Hc as [Hin <-]. auto.
  - intros [Hin Hd]. exists (timestamp_ms c, records_at es_subs (timestamp_ms c)).
    assert (Hc : In c (records_at es_subs (timestamp_ms c)))
      by (apply in_records_at; auto).
    split.
    + apply build_es_by_time_items. split; [reflexivity|].
      intros Hnil. rewrite Hnil in Hc. destruct Hc.
    + simpl. destruct (Z.leb_spec (Z.abs (timestamp_ms c - timestamp_ms en_sub)) 500);
        [exact Hc|lia].
Qed.

(** ** [min] with a key *)

Lemma min_by_spec {A : Type} (key : A -> Z) (xs : list A) (x : A) :
  In (Py.min_by key x xs) (x :: xs) /\
  forall y, In y (x :: xs) -> key (Py.min_by key x xs) <= key y.
Proof.
  unfold Py.min_by. revert x. induction xs as [|y xs IH]; intros x; simpl.
  - split; [auto|]. intros y [->|[]]. lia.
  - destruct (IH (if key y <? key x then y else x)) as [Hin Hmin].
    simpl in Hin. split.
    + destruct Hin as [Hin|Hin]; [|auto]. rewrite <- Hin.
      destruct (key y <? key x); auto.
    + intros z Hz.
      pose proof (Hmin _ (or_introl eq_refl)) as Hc.
      destruct Hz as [<-|[<-|Hz]]; [| |apply Hmin; right; exact Hz];
        destruct (Z.ltb_spec (key y) (key x)); lia.
Qed.

(** ** The issue classifier *)

Lemma issue_step_add (d : TimeDict.t) (iss : issues) (en_sub : Subtitle) :
  issue_step d iss en_sub = issues_add iss (issue_delta d en_sub).
Proof.
  unfold issue_delta, issue_step, issues_add.
  destruct (default [] (TimeDict.get (timestamp_ms en_sub) d)) as [|c rest].
  - destruct (close_matches_of d en_sub) as [|c0 cs]; simpl.
    + rewrite !app_nil_r. reflexivity.
    + destruct (200 <? _); simpl; rewrite !app_nil_r; [reflexivity|].
      destruct iss; reflexivity.
  - destruct (1 <? length (c :: rest))%nat;
      destruct (negb (index en_sub =? index c)); simpl;
      rewrite ?app_nil_r; reflexivity.
Qed.

Lemma issues_fold (d : TimeDict.t) (l : list Subtitle) (iss : issues) :
  fold_left (issue_step d) l iss =
  {| missing_in_es :=
       missing_in_es iss ++ flat_map (fun r => missing_in_es (issue_delta d r)) l;
     duplicates_in_es :=
       duplicates_in_es iss ++
       flat_map (fun r => duplicates_in_es (issue_delta d r)) l;
     time_drifts :=
       time_drifts iss ++ flat_map (fun r => time_drifts (issue_delta d r)) l;
     index_mismatches :=
       index_mismatches iss ++
       flat_map (fun r => index_mismatches (issue_delta d r)) l |}.
Proof.
  revert iss. induction l as [|r l IH]; intros iss; simpl.
  - rewrite !app_nil_r. destruct iss; reflexivity.
  - rewrite IH, issue_step_add. simpl. rewrite !app_assoc. reflexivity.
Qed.

Lemma issue_delta_shape (es_subs : list Subtitle) (en_sub : Subtitle) :
  delta_shape es_subs en_sub (issue_delta (build_es_by_time es_subs) en_sub).
Proof.
  unfold issue_delta, issue_step. rewrite get_build_es_by_time.
  destruct (records_at es_subs (timestamp_ms en_sub)) as [|c rest] eqn:Hc;
    simpl default; cbv iota.
  - destruct (close_matches_of (build_es_by_time es_subs) en_sub)
      as [|c0 cs] eqn:Hclose.
    + apply ShapeMissing; assumption.
    + fold (distance en_sub).
      change (Z.abs (timestamp_ms (Py.min_by (distance en_sub) c0 cs) -
                     timestamp_ms en_sub))
        with (distance en_sub (Py.min_by (distance en_sub) c0 cs)).
      destruct (Z.ltb_spec 200
                  (distance en_sub (Py.min_by (distance en_sub) c0 cs))).
      * eapply ShapeDrift; eassumption.
      * eapply ShapeNear; eassumption.
  - assert (Hdup : (if (1 <? length (c :: rest))%nat
                    then duplicates_in_es issues_init ++ rest
                    else duplicates_in_es issues_init) = rest).
    { destruct rest; reflexivity. }
    rewrite Hdup. simpl.
    destruct (Z.eqb_spec (index en_sub) (index c)); simpl.
    + eapply ShapeExact; eassumption.
    + eapply ShapeMismatch; eassumption.
Qed.

Lemma find_sync_issues_buckets (en_subs es_subs : list Subtitle) :
  let d := build_es_by_time es_subs in
  find_sync_issues en_subs es_subs =
  {| missing_in_es := flat_map (fun r => missing_in_es (issue_delta d r)) en_subs;
     duplicates_in_es :=
       flat_map (fun r => duplicates_in_es (issue_delta d r)) en_subs;
     time_drifts := flat_map (fun r => time_drifts (issue_delta d r)) en_subs;
     index_mismatches :=
       flat_map (fun r => index_mismatches (issue_delta d r)) en_subs |}.
Proof. unfold find_sync_issues. rewrite issues_fold. reflexivity. Qed.

(** An entry of a bucket comes from the iteration of its own reference
    record. *)
Ltac own_iteration es_subs r Hr Hin :=
  let Hs := fresh "Hs" in
  let E := fresh "E" in
  pose proof (issue_delta_shape es_subs r) as Hs;
  remember (issue_delta (build_es_by_time es_subs) r) as delta eqn:E;
  destruct Hs; simpl in Hin;
  try (destruct Hin as [Hin|[]]; [idtac]);
  try (destruct Hin; fail);
  simplify_eq Hin; intros; subst;
  (split; [exact Hr|]);
  match goal with E' : _ = issue_delta _ _ |- _ => rewrite <- E' end;
  left; reflexivity.

Lemma in_missing_in_es (en_subs es_subs : list Subtitle) (x : Subtitle) :
  In x (missing_in_es (find_sync_issues en_subs es_subs)) <->
  In x en_subs /\
  In x (missing_in_es (issue_delta (build_es_by_time es_subs) x)).
Proof.
  rewrite find_sync_issues_buckets. simpl. rewrite in_flat_map. split.
  - intros (r & Hr & Hin). own_iteration es_subs r Hr Hin.
  - intros [Hx Hin]. exists x. auto.
Qed.

Lemma in_time_drifts (en_subs es_subs : list Subtitle) (x c : Subtitle) :
  In (x, c) (time_drifts (find_sync_issues en_subs es_subs)) <->
  In x en_subs /\
  In (x, c) (time_drifts (issue_delta (build_es_by_time es_subs) x)).
Proof.
  rewrite find_sync_issues_buckets. simpl. rewrite in_flat_map. split.
  - intros (r & Hr & Hin). own_iteration es_subs r Hr Hin.
  - intros [Hx Hin]. exists x. auto.
Qed.

Lemma in_index_mismatches (en_subs es_subs : list Subtitle) (x c : Subtitle) :
  In (x, c) (index_mismatches (find_sync_issues en_subs es_subs)) <->
  In x en_subs /\
  In (x, c) (index_mismatches (issue_delta (build_es_by_time es_subs) x)).
Proof.
  rewrite find_sync_issues_buckets. simpl. rewrite in_flat_map. split.
  - intros (r & Hr & Hin). own_iteration es_subs r Hr Hin.
  - intros [Hx Hin]. exists x. auto.
Qed.

Lemma best_match_nearest (es_subs : list Subtitle) (en_sub c cs_hd : Subtitle)
    (cs : list Subtitle) :
  close_matches_of (build_es_by_time es_subs) en_sub = cs_hd :: cs ->
  c = Py.min_by (distance en_sub) cs_hd cs ->
  In c es_subs /\ distance en_sub c <= 500 /\
  forall c', In c' es_subs -> distance en_sub c <= distance en_sub c'.
Proof.
  intros Hclose ->.
  destruct (min_by_spec (distance en_sub) cs cs_hd) as [Hin Hmin].
  rewrite <- Hclose in Hin, Hmin.
  apply in_close_matches in Hin. destruct Hin as [Hin Hd].
  split; [exact Hin|]. split; [exact Hd|].
  intros c' Hc'.
  destruct (Z.le_gt_cases (distance en_sub c') 500) as [Hle|Hgt].
  - apply Hmin, in_close_matches. auto.
  - unfold distance in *. lia.
Qed.

Lemma no_candidate_at (es_subs : list Subtitle) (t : Z) :
  records_at es_subs t = [] <->
  forall c, In c es_subs -> timestamp_ms c <> t.
Proof.
  split.
  - intros Hnil c Hc Ht.
    assert (Hin : In c (records_at es_subs t))
      by (apply in_records_at; auto).
    rewrite Hnil in Hin. destruct Hin.
  - intros Hall. destruct (records_at es_subs t) as [|c l] eqn:Hc;
      [reflexivity|].
    assert (Hin : In c (records_at es_subs t)) by (rewrite Hc; left; auto).
    apply in_records_at in Hin. destruct Hin as [Hin Ht].
    destruct (Hall c Hin Ht).
Qed.

Lemma no_close_match (es_subs : list Subtitle) (en_sub : Subtitle) :
  close_matches_of (build_es_by_time es_subs) en_sub = [] <->
  forall c, In c es_subs -> 500 < distance en_sub c.
Proof.
  split.
  - intros Hnil c Hc.
    destruct (Z.le_gt_cases (distance en_sub c) 500) as [Hle|Hgt]; [|lia].
    assert (Hin : In c (close_matches_of (build_es_by_time es_subs) en_sub))
      by (apply in_close_matches; auto).
    rewrite Hnil in Hin. destruct Hin.
  - intros Hall.
    destruct (close_matches_of (build_es_by_time es_subs) en_sub)
      as [|c l] eqn:Hc; [reflexivity|].
    assert (Hin : In c (close_matches_of (build_es_by_time es_subs) en_sub))
      by (rewrite Hc; left; auto).
    apply in_close_matches in Hin. destruct Hin as [Hin Hd].
    specialize (Hall c Hin). unfold distance in Hall. lia.
Qed.

(** C1: a reference record is in exactly one disposition. It is in
    [missing_in_es] (no candidate within 500 ms), or the first component of a
    pair of [time_drifts] (whose second component is its nearest candidate,
    more than 200 ms away), or the first component of a pair of
    [index_mismatches] (whose second component is the first candidate at its
    exact timestamp, with another sequence number), or in none of these three
    buckets, which happens exactly when the first candidate at its timestamp
    has its sequence number or when no candidate has its timestamp and one is
    at most 200 ms away. *)
Theorem find_sync_issues_one_disposition (en_subs es_subs : list Subtitle)
    (r : Subtitle) :
  In r en_subs ->
  let iss := find_sync_issues en_subs es_subs in
  let missing := In r (missing_in_es iss) in
  let drift := exists c, In (r, c) (time_drifts iss) in
  let mismatch := exists c, In (r, c) (index_mismatches iss) in
  (missing /\ ~ drift /\ ~ mismatch \/
   ~ missing /\ drift /\ ~ mismatch \/
   ~ missing /\ ~ drift /\ mismatch \/
   ~ missing /\ ~ drift /\ ~ mismatch) /\
  (missing <-> forall c, In c es_subs -> 500 < distance r c) /\
  (forall c, In (r, c) (time_drifts iss) ->
     In c es_subs /\ 200 < distance r c <= 500 /\
     (forall c', In c' es_subs -> distance r c <= distance r c') /\
     forall c', In (r, c') (time_drifts iss) -> c' = c) /\
  (forall c, In (r, c) (index_mismatches iss) ->
     (exists rest, records_at es_subs (timestamp_ms r) = c :: rest) /\
     In c es_subs /\ timestamp_ms c = timestamp_ms r /\
     index c <> index r) /\
  (~ missing /\ ~ drift /\ ~ mismatch <->
   (exists c rest, records_at es_subs (timestamp_ms r) = c :: rest /\
                   index c = index r) \/
   (forall c, In c es_subs -> timestamp_ms c <> timestamp_ms r) /\
   exists c, In c es_subs /\ distance r c <= 200).
Proof.
  intros Hr iss missing drift mismatch.
  assert (HM : missing <->
            In r (missing_in_es (issue_delta (build_es_by_time es_subs) r))).
  { unfold missing, iss. rewrite in_missing_in_es. tauto. }
  assert (HD : forall c, In (r, c) (time_drifts iss) <->
            In (r, c) (time_drifts (issue_delta (build_es_by_time es_subs) r))).
  { intros c. unfold iss. rewrite in_time_drifts. tauto. }
  assert (HX : forall c, In (r, c) (index_mismatches iss) <->
            In (r, c)
              (index_mismatches (issue_delta (build_es_by_time es_subs) r))).
  { intros c. unfold iss. rewrite in_index_mismatches. tauto. }
  assert (HD' : drift <-> exists c,
            In (r, c) (time_drifts (issue_delta (build_es_by_time es_subs) r))).
  { unfold drift. split; intros [c Hc]; exists c; apply HD; exact Hc. }
  assert (HX' : mismatch <-> exists c,
            In (r, c)
              (index_mismatches (issue_delta (build_es_by_time es_subs) r))).
  { unfold mismatch. split; intros [c Hc]; exists c; apply HX; exact Hc. }
  rewrite HM, HD', HX'.
  setoid_rewrite HD. setoid_rewrite HX.
  clearbody missing drift mismatch iss. clear HM HD HX HD' HX'.
  destruct (issue_delta_shape es_subs r)
    as [Hc Hclose|c0 cs Hc Hclose Hfar|c0 cs Hc Hclose Hnear
       |c rest Hc Hidx|c rest Hc Hidx]; simpl.
  - (* missing *)
    pose proof (proj1 (no_close_match es_subs r) Hclose) as Hall.
    split; [left; split; [auto|split; intros [c []]]|].
    split; [split; auto|].
    split; [intros c []|]. split; [intros c []|].
    split; [intros (Hm & _); exfalso; apply Hm; auto|].
    intros [(c & rest & Hc' & _)|(_ & c & Hin & Hd)].
    + congruence.
    + specialize (Hall c Hin). lia.
  - (* time drift *)
    destruct (best_match_nearest es_subs r _ c0 cs Hclose eq_refl)
      as (Hin & H500 & Hmin).
    set (b := Py.min_by (distance r) c0 cs) in *.
    split; [right; left; split; [intros []|split; [exists b; auto|intros [c []]]]|].
    split.
    { split; [intros []|]. intros Hall. specialize (Hall b Hin). lia. }
    split.
    { intros c [[= <-]|[]]. split; [exact Hin|]. split; [lia|].
      split; [exact Hmin|]. intros c' [[= <-]|[]]. reflexivity. }
    split; [intros c []|].
    split.
    + intros (_ & Hnd & _). exfalso. apply Hnd. exists b. auto.
    + intros [(c & rest & Hc' & _)|(_ & c & Hcin & Hd)]; [congruence|].
      specialize (Hmin c Hcin). lia.
  - (* near match *)
    destruct (best_match_nearest es_subs r _ c0 cs Hclose eq_refl)
      as (Hin & H500 & Hmin).
    set (b := Py.min_by (distance r) c0 cs) in *.
    split; [right; right; right; split; [intros []|split; intros [c []]]|].
    split.
    { split; [intros []|]. intros Hall. specialize (Hall b Hin). lia. }
    split; [intros c []|]. split; [intros c []|].
    split.
    + intros _. right. split; [apply no_candidate_at, Hc|]. exists b. auto.
    + intros _. split; [intros []|split; intros [c []]].
  - (* index mismatch *)
    assert (Hcin : In c (records_at es_subs (timestamp_ms r)))
      by (rewrite Hc; left; reflexivity).
    apply in_records_at in Hcin. destruct Hcin as [Hcin Ht].
    split; [right; right; left; split; [intros []|split;
              [intros [c' []]|exists c; auto]]|].
    split.
    { split; [intros []|]. intros Hall. specialize (Hall c Hcin).
      unfold distance in Hall. lia. }
    split; [intros c' []|].
    split.
    { intros c' [[= <-]|[]]. split; [exists rest; exact Hc|].
      split; [exact Hcin|]. split; [exact Ht|]. congruence. }
    split.
    + intros (_ & _ & Hnx). exfalso. apply Hnx. exists c. auto.
    + intros [(c' & rest' & Hc' & Hidx')|(Hno & _)].
      * rewrite Hc in Hc'. injection Hc' as <- <-. congruence.
      * destruct (Hno c Hcin Ht).
  - (* exact match *)
    assert (Hcin : In c (records_at es_subs (timestamp_ms r)))
      by (rewrite Hc; left; reflexivity).
    apply in_records_at in Hcin. destruct Hcin as [Hcin Ht].
    split; [right; right; right; split; [intros []|split; intros [c' []]]|].
    split.
    { split; [intros []|]. intros Hall. specialize (Hall c Hcin).
      unfold distance in Hall. lia. }
    split; [intros c' []|]. split; [intros c' []|].
    split.
    + intros _. left. exists c, rest. auto.
    + intros _. split; [intros []|split; intros [c' []]].
Qed.

(** ** Duplicates *)

Lemma duplicates_of_delta (es_subs : list Subtitle) (r : Subtitle) :
  duplicates_in_es (issue_delta (build_es_by_time es_subs) r) =
  tl (records_at es_subs (timestamp_ms r)).
Proof.
  destruct (issue_delta_shape es_subs r)
    as [Hc _|? ? Hc _ _|? ? Hc _ _|? ? Hc _|? ? Hc _];
    rewrite Hc; reflexivity.
Qed.

(** Each reference record contributes the non-first candidates at its own
    timestamp. *)
Lemma duplicates_in_es_flat_map (en_subs es_subs : list Subtitle) :
  duplicates_in_es (find_sync_issues en_subs es_subs) =
  flat_map (fun r => tl (records_at es_subs (timestamp_ms r))) en_subs.
Proof.
  rewrite find_sync_issues_buckets. simpl.
  induction en_subs as [|r en_subs IH]; simpl; [reflexivity|].
  rewrite duplicates_of_delta, IH. reflexivity.
Qed.

Lemma filter_all {A : Type} (p : A -> bool) (l : list A) :
  (forall x, In x l -> p x = true) -> List.filter p l = l.
Proof.
  induction l as [|a l IH]; intros H; simpl; [reflexivity|].
  rewrite (H a (or_introl eq_refl)), IH; [reflexivity|].
  intros x Hx. apply H. right. exact Hx.
Qed.

Lemma filter_none {A : Type} (p : A -> bool) (l : list A) :
  (forall x, In x l -> p x = false) -> List.filter p l = [].
Proof.
  induction l as [|a l IH]; intros H; simpl; [reflexivity|].
  rewrite (H a (or_introl eq_refl)). apply IH.
  intros x Hx. apply H. right. exact Hx.
Qed.

Lemma in_tl {A : Type} (x : A) (l : list A) : In x (tl l) -> In x l.
Proof. destruct l; simpl; auto. Qed.

Lemma duplicates_at (en_subs es_subs : list Subtitle) (t : Z) :
  List.filter (fun c => timestamp_ms c =? t)
    (duplicates_in_es (find_sync_issues en_subs es_subs)) =
  concat (repeat (tl (records_at es_subs t)) (length (records_at en_subs t))).
Proof.
  rewrite duplicates_in_es_flat_map.
  induction en_subs as [|r en_subs IH]; simpl; [reflexivity|].
  rewrite List.filter_app, IH.
  destruct (Z.eqb_spec (timestamp_ms r) t) as [->|Hne]; simpl.
  - rewrite filter_all; [reflexivity|].
    intros x Hx. apply in_tl, in_records_at in Hx. lia.
  - rewrite filter_none; [reflexivity|].
    intros x Hx. apply in_tl, in_records_at in Hx. lia.
Qed.

Lemma count_occ_filter (p : Subtitle -> bool) (l : list Subtitle)
    (c : Subtitle) :
  p c = true ->
  count_occ Subtitle_eq_dec (List.filter p l) c = count_occ Subtitle_eq_dec l c.
Proof.
  intros Hp. induction l as [|a l IH]; simpl; [reflexivity|].
  destruct (Subtitle_eq_dec a c) as [->|Hne].
  - rewrite Hp. simpl. destruct (Subtitle_eq_dec c c); congruence.
  - destruct (p a); simpl; [|exact IH].
    destruct (Subtitle_eq_dec a c); congruence.
Qed.

Lemma count_occ_concat_repeat (l : list Subtitle) (k : nat) (c : Subtitle) :
  count_occ Subtitle_eq_dec (concat (repeat l k)) c =
  (k * count_occ Subtitle_eq_dec l c)%nat.
Proof.
  induction k as [|k IH]; simpl; [reflexivity|].
  rewrite count_occ_app, IH. reflexivity.
Qed.

(** C10: duplicates are flagged once per reference record. When [k > 1]
    reference records and [m > 1] candidate records start at [t], the part of
    [duplicates_in_es] at [t] is the list of the [m - 1] non-first candidates
    at [t] repeated [k] times, so each of them occurs at least [k] times in
    the bucket. *)
Theorem duplicates_flagged_per_reference (en_subs es_subs : list Subtitle)
    (t : Z) (k m : nat) :
  k = length (records_at en_subs t) ->
  m = length (records_at es_subs t) ->
  (1 < k)%nat -> (1 < m)%nat ->
  let dups := duplicates_in_es (find_sync_issues en_subs es_subs) in
  let non_first := tl (records_at es_subs t) in
  List.filter (fun c => timestamp_ms c =? t) dups = concat (repeat non_first k) /\
  length non_first = (m - 1)%nat /\
  (forall c, In c non_first ->
     (k <= count_occ Subtitle_eq_dec dups c)%nat) /\
  exists c, In c non_first /\ (1 < count_occ Subtitle_eq_dec dups c)%nat.
Proof.
  intros -> -> Hk Hm dups non_first.
  assert (Hfilter : List.filter (fun c => timestamp_ms c =? t) dups =
                    concat (repeat non_first (length (records_at en_subs t))))
    by apply duplicates_at.
  assert (Hcount : forall c, In c non_first ->
            (length (records_at en_subs t) <=
             count_occ Subtitle_eq_dec dups c)%nat).
  { intros c Hc.
    assert (Ht : (timestamp_ms c =? t) = true).
    { apply in_tl, in_records_at in Hc. lia. }
    rewrite <- (count_occ_filter (fun c => timestamp_ms c =? t) dups c Ht),
      Hfilter, count_occ_concat_repeat.
    apply (count_occ_In Subtitle_eq_dec) in Hc. nia. }
  split; [exact Hfilter|]. split; [|split; [exact Hcount|]].
  - unfold non_first. destruct (records_at es_subs t); simpl in *; lia.
  - unfold non_first in *.
    destruct (records_at es_subs t) as [|c0 [|c1 rest]]; simpl in Hm; try lia.
    exists c1. split; [left; reflexivity|].
    specialize (Hcount c1 (or_introl eq_refl)). lia.
Qed.

(** ** The timestamp decoder and the parser *)

Lemma int_raises (s : string) (e : Py.exn) :
  Py.int s = inl e -> e = Py.ValueError.
Proof.
  unfold Py.int.
  destruct (match Py.strip s with
            | String "+" r => Py.int_digits 0 false r
            | String "-" r => Z.opp <$> Py.int_digits 0 false r
            | r => Py.int_digits 0 false r
            end); [discriminate|].
  intros [= <-]. reflexivity.
Qed.

Lemma mapM_int_raises (l : list string) (e : Py.exn) :
  Py.mapM Py.int l = inl e -> e = Py.ValueError.
Proof.
  induction l as [|s l IH]; simpl; [discriminate|].
  destruct (Py.int s) as [e'|z] eqn:Hs; simpl.
  - intros [= <-]. exact (int_raises _ _ Hs).
  - destruct (Py.mapM Py.int l) as [e'|zs]; simpl; [|discriminate].
    intros [= <-]. apply IH. reflexivity.
Qed.



Lemma parse_timestamp_raises (s : string) (e : Py.exn) :
  parse_timestamp s = inl e -> e = Py.ValueError.
Proof.
  unfold parse_timestamp.
  destruct (Py.mapM Py.int (Py.split ":" (Py.replace "," ":" s)))
    as [e'|ints] eqn:Hm; simpl.
  - intros [= <-]. exact (mapM_int_raises _ _ Hm).
  - destruct ints as [|h [|m [|sec [|ms [|]]]]]; simpl;
      try discriminate; intros [= <-]; reflexivity.
Qed.

(** Every exception of the [try] suite is one the handler catches. *)
Lemma parse_block_handled (lines : list string) (e : Py.exn) :
  parse_block lines = inl e -> handled e = true.
Proof.
  unfold parse_block, Py.getitem.
  destruct lines as [|line0 lines]; simpl; [intros [= <-]; reflexivity|].
  destruct (Py.int line0) as [e0|idx] eqn:Hint; simpl.
  { intros [= <-]. rewrite (int_raises _ _ Hint). reflexivity. }
  destruct lines as [|time_line lines]; simpl; [intros [= <-]; reflexivity|].
  destruct (Py.contains "-->" time_line); simpl; [|discriminate].
  destruct (Py.split " --> " time_line) as [|a [|b [|]]]; simpl;
    try (intros [= <-]; reflexivity).
  destruct (parse_timestamp (Py.strip a)) as [e1|ms] eqn:Hts; simpl;
    [|discriminate].
  intros [= <-]. rewrite (parse_timestamp_raises _ _ Hts). reflexivity.
Qed.

(** An iteration of the block loop never raises: it leaves the track as it
    is or appends one record. *)
Lemma parse_step_cases (subtitles : list Subtitle) (block : string) :
  parse_step subtitles block = inr subtitles \/
  exists sub, parse_step subtitles block = inr (subtitles ++ [sub]) /\
              (3 <= length (Py.split LF (Py.strip block)))%nat /\
              parse_block (Py.split LF (Py.strip block)) = inr (Some sub).
Proof.
  unfold parse_step.
  destruct (String.eqb (Py.strip block) EmptyString); [left; reflexivity|].
  destruct (Nat.ltb_spec (length (Py.split LF (Py.strip block))) 3);
    [left; reflexivity|].
  destruct (parse_block (Py.split LF (Py.strip block))) as [e|[sub|]] eqn:Hb;
    simpl.
  - rewrite (parse_block_handled _ _ Hb). left. reflexivity.
  - right. exists sub. auto.
  - left. reflexivity.
Qed.

Lemma parse_blocks_total (blocks : list string) (subtitles : list Subtitle) :
  exists track, parse_blocks subtitles blocks = inr track.
Proof.
  revert subtitles. induction blocks as [|block rest IH]; intros subtitles.
  - exists subtitles. reflexivity.
  - simpl. destruct (parse_step_cases subtitles block) as [->|(sub & -> & _)];
      simpl; apply IH.
Qed.

(** What a block that yields a record looks like. *)
Lemma parse_block_Some (lines : list string) (sub : Subtitle) :
  parse_block lines = inr (Some sub) ->
  exists idx start_time end_time start_ms,
    Py.int (nth 0 lines EmptyString) = inr idx /\
    Py.contains "-->" (nth 1 lines EmptyString) = true /\
    Py.split " --> " (nth 1 lines EmptyString) = [start_time; end_time] /\
    parse_timestamp (Py.strip start_time) = inr start_ms /\
    sub = {| index := idx; start_time := Py.strip start_time;
             end_time := Py.strip end_time;
             text := Py.join LF (skipn 2 lines);
             timestamp_ms := start_ms |}.
Proof.
  unfold parse_block, Py.getitem.
  destruct lines as [|line0 lines]; simpl; [discriminate|].
  destruct (Py.int line0) as [e0|idx] eqn:Hint; simpl; [discriminate|].
  destruct lines as [|time_line lines]; simpl; [discriminate|].
  destruct (Py.contains "-->" time_line) eqn:Hsep; simpl; [|discriminate].
  destruct (Py.split " --> " time_line) as [|a [|b [|]]] eqn:Hsplit; simpl;
    try discriminate.
  destruct (parse_timestamp (Py.strip a)) as [e1|ms] eqn:Hts; simpl;
    [discriminate|].
  intros [= <-]. exists idx, a, b, ms. repeat split; assumption.
Qed.

(** C7: the parser returns a track for every text; a block with fewer than
    three lines, with a first line that is not an integer, with a second line
    without the separator or with a start clock that does not decode leaves
    the track as it is; and a text with one well-formed block and one block
    whose time line lacks the separator gives the one well-formed record. *)
Theorem parse_srt_file_lenient :
  (forall file_text : string,
     exists track, parse_srt_file file_text = inr track) /\
  (forall (subtitles : list Subtitle) (block : string),
     let lines := Py.split LF (Py.strip block) in
     (length lines < 3)%nat \/
     (exists e, Py.int (nth 0 lines EmptyString) = inl e) \/
     Py.contains "-->" (nth 1 lines EmptyString) = false \/
     (exists start_time end_time e,
        Py.split " --> " (nth 1 lines EmptyString) = [start_time; end_time] /\
        parse_timestamp (Py.strip start_time) = inl e) ->
     parse_step subtitles block = inr subtitles) /\
  parse_srt_file "1
00:00:01,000 --> 00:00:02,000
Hello
there

2
00:00:03,000 00:00:04,000
World
" = inr [ {| index := 1; start_time := "00:00:01,000";
             end_time := "00:00:02,000"; text := "Hello
there"; timestamp_ms := 1000 |} ].
Proof.
  split; [|split].
  - intros file_text. unfold parse_srt_file. apply parse_blocks_total.
  - intros subtitles block lines Hbad.
    destruct (parse_step_cases subtitles block)
      as [H|(sub & _ & Hlen & Hsub)]; [exact H|].
    exfalso. fold lines in Hlen, Hsub.
    apply parse_block_Some in Hsub.
    destruct Hsub as (idx & st & en & ms & Hint & Hsep & Hsplit & Hts & _).
    destruct Hbad as [Hlt|[[e He]|[Hno|(st' & en' & e & Hsplit' & He)]]].
    + lia.
    + congruence.
    + congruence.
    + rewrite Hsplit in Hsplit'. injection Hsplit' as <- <-. congruence.
  - vm_compute. reflexivity.
Qed.

(** C2: the scenario with reference records #1 at 00:00:01,000 and #2 at
    00:00:02,000 and candidate records #1 at 00:00:01,050 and #2 at
    00:00:02,900, whatever their end clocks and texts: reference #2 is the only
    entry of [missing_in_es], the other three buckets are empty. The nearest
    candidate of reference #1 is 50 ms away, the nearest of reference #2 is
    900 ms away. *)
Theorem find_sync_issues_scenario (end1 end2 end1' end2' : string)
    (text1 text2 text1' text2' : string) :
  let r1 := mkSubtitle 1 "00:00:01,000" end1 text1 1000 in
  let r2 := mkSubtitle 2 "00:00:02,000" end2 text2 2000 in
  let c1 := mkSubtitle 1 "00:00:01,050" end1' text1' 1050 in
  let c2 := mkSubtitle 2 "00:00:02,900" end2' text2' 2900 in
  map (fun s => parse_timestamp (start_time s)) [r1; r2; c1; c2] =
    map (fun s => inr (timestamp_ms s)) [r1; r2; c1; c2] /\
  find_sync_issues [r1; r2] [c1; c2] =
    {| missing_in_es := [r2]; duplicates_in_es := [];
       time_drifts := []; index_mismatches := [] |} /\
  records_at [c1; c2] (timestamp_ms r1) = [] /\
  distance r1 c1 = 50 /\ distance r1 c2 = 1900 /\
  distance r2 c1 = 950 /\ distance r2 c2 = 900.
Proof.
  intros r1 r2 c1 c2. repeat split; vm_compute; reflexivity.
Qed.

(** ** Clocks with arbitrary hours *)











Lemma append_cons (c : ascii) (s t : string) :
  (String c s ++ t)%string = String c (s ++ t)%string.
Proof. reflexivity. Qed.

Lemma append_nil_r (s : string) : (s ++ EmptyString)%string = s.
Proof.
  induction s as [|c s IH]; [reflexivity|].
  rewrite append_cons, IH. reflexivity.
Qed.

Lemma append_assoc (s t u : string) :
  ((s ++ t) ++ u = s ++ (t ++ u))%string.
Proof.
  induction s as [|c s IH]; [reflexivity|].
  rewrite !append_cons, IH. reflexivity.
Qed.







(** ** Sample tracks *)

Example samples_decoded :
  Forall (fun s => parse_timestamp (start_time s) = inr (timestamp_ms s))
    (track7 ++ es_late ++ es_scenario ++ en_window ++ es_disordered ++
     es_three ++ es_same_time).
Proof. repeat constructor. Qed.

Lemma find_sync_issues_one_disposition_witness :
  let r := cue 2 "00:00:02,000" 2000 in
  let iss := find_sync_issues en_two es_scenario in
  In r (missing_in_es iss) <->
  forall c, In c es_scenario -> 500 < distance r c.
Proof.
  intros r iss.
  exact (proj1 (proj2 (find_sync_issues_one_disposition en_two es_scenario r
                         (or_intror (or_introl eq_refl))))).
Defined.

Lemma verify_range_chronological_order_witness :
  In (ChronologicalOrder 5)
     (errors (verify_range_loop en_window es_disordered 4 6)) /\
  verify_range_sync en_window es_disordered 4 6 = false.
Proof.
  apply (verify_range_chronological_order en_window es_disordered 4 6 5
           (cue 5 "00:00:05,010" 5010) (cue 5 "00:00:05,000" 5000)
           (cue 4 "00:00:05,050" 5050)).
  - lia.
  - vm_compute. reflexivity.
  - vm_compute. reflexivity.
  - vm_compute. reflexivity.
  - simpl. lia.
Defined.

(** C3 as stated fails when the reference track has no record at the index:
    the iteration stops at the missing-reference error, before the order
    test. *)
Lemma verify_range_chronological_order_counterexample :
  4 < 5 <= 6 /\
  by_index es_disordered !! 5 = Some (cue 5 "00:00:05,000" 5000) /\
  by_index es_disordered !! (5 - 1) = Some (cue 4 "00:00:05,050" 5050) /\
  timestamp_ms (cue 5 "00:00:05,000" 5000) <
    timestamp_ms (cue 4 "00:00:05,050" 5050) /\
  errors (verify_range_loop en_gap es_disordered 4 6) = [MissingReference 5] /\
  ~ In (ChronologicalOrder 5)
       (errors (verify_range_loop en_gap es_disordered 4 6)).
Proof.
  split; [lia|]. split; [vm_compute; reflexivity|].
  split; [vm_compute; reflexivity|]. split; [simpl; lia|].
  split; [vm_compute; reflexivity|].
  apply order_not_tested_without_reference. vm_compute. reflexivity.
Qed.

Lemma find_last_good_sync_boundary_witness :
  7 = 0 \/
  5 <= 7 /\
  forall j, 7 - 4 <= j <= 7 ->
    exists en_sub es_sub,
      by_index track7 !! j = Some en_sub /\
      by_index track7 !! j = Some es_sub /\
      In en_sub track7 /\ index en_sub = j /\
      In es_sub track7 /\ index es_sub = j /\
      Z.abs (timestamp_ms en_sub - timestamp_ms es_sub) <= 500.
Proof.
  apply (find_last_good_sync_boundary track7 track7 7).
  vm_compute. reflexivity.
Defined.

Lemma duplicates_flagged_per_reference_witness :
  let dups := duplicates_in_es (find_sync_issues en_same_time es_same_time) in
  let non_first := tl (records_at es_same_time 1000) in
  List.filter (fun c => timestamp_ms c =? 1000) dups =
    concat (repeat non_first 2) /\
  length non_first = (2 - 1)%nat /\
  (forall c, In c non_first -> (2 <= count_occ Subtitle_eq_dec dups c)%nat) /\
  exists c, In c non_first /\ (1 < count_occ Subtitle_eq_dec dups c)%nat.
Proof.
  apply (duplicates_flagged_per_reference en_same_time es_same_time 1000 2 2).
  - reflexivity.
  - reflexivity.
  - lia.
  - lia.
Defined.

Example duplicates_same_time :
  duplicates_in_es (find_sync_issues en_same_time es_same_time) =
  [cue 3 "00:00:01,000" 1000; cue 3 "00:00:01,000" 1000].
Proof. vm_compute. reflexivity. Qed.

Lemma verify_range_sync_classification_witness :
  let st := verify_range_loop en_three es_three 1 3 in
  In (Desync 3 300) (errors st) /\
  In (MinorDeviation 2 80) (warnings st) /\
  good_count st = 1 /\
  (verify_range_sync en_three es_three 1 3 = true <-> errors st = []).
Proof.
  assert (Hpresent : forall i, 1 <= i <= 3 ->
            exists en_sub es_sub,
              by_index en_three !! i = Some en_sub /\
              by_index es_three !! i = Some es_sub /\
              diff_three i =
              Z.abs (timestamp_ms en_sub - timestamp_ms es_sub)).
  { intros i Hi.
    assert (Hcases : i = 1 \/ i = 2 \/ i = 3) by lia.
    destruct Hcases as [-> | [-> | ->]].
    - exists (cue 1 "00:00:01,000" 1000), (cue 1 "00:00:01,000" 1000).
      repeat split; vm_compute; reflexivity.
    - exists (cue 2 "00:00:02,000" 2000), (cue 2 "00:00:02,080" 2080).
      repeat split; vm_compute; reflexivity.
    - exists (cue 3 "00:00:03,000" 3000), (cue 3 "00:00:03,300" 3300).
      repeat split; vm_compute; reflexivity. }
  destruct (verify_range_sync_classification en_three es_three 1 3 diff_three
              Hpresent) as (Hclass & Hgood & Hclean & _).
  split; [|split; [|split]].
  - apply (Hclass 3); [lia|]. reflexivity.
  - apply (Hclass 2); [lia|]. split; [reflexivity|]. discriminate.
  - exact Hgood.
  - exact Hclean.
Defined.

Lemma find_last_good_sync_identical_or_misaligned_witness :
  find_last_good_sync track7 track7 = inr 7 /\
  find_last_good_sync en_two es_late = inr 0.
Proof.
  destruct find_last_good_sync_identical_or_misaligned as [Hsame Hbad].
  split.
  - apply (Hsame track7 7); [lia|].
    intros i. split.
    + intros (s & Hs & <-). simpl in Hs.
      repeat (destruct Hs as [<-|Hs]; [simpl; lia|]). destruct Hs.
    + intros Hi.
      assert (Hcases : i = 1 \/ i = 2 \/ i = 3 \/ i = 4 \/ i = 5 \/ i = 6 \/
                       i = 7) by lia.
      destruct Hcases as [-> | [-> | [-> | [-> | [-> | [-> | ->]]]]]];
        match goal with
        | |- exists s, _ /\ index s = ?k =>
            exists (default (cue 0 EmptyString 0) (by_index track7 !! k))
        end;
        (split; [vm_compute; auto 10|reflexivity]).
  - apply (Hbad en_two es_late); [discriminate|discriminate|].
    intros i a b Ha Hb.
    apply by_index_Some in Ha. apply by_index_Some in Hb.
    destruct Ha as [Ha <-]. destruct Hb as [Hb Hidx]. simpl in Ha, Hb.
    destruct Ha as [<-|[<-|[]]]; destruct Hb as [<-|[<-|[]]];
      simpl in *; lia.
Defined.

(** * Further properties *)

(** ** The parser, block by block *)

Lemma parse_srt_file_blocks (file_text : string) :
  parse_srt_file file_text = parse_blocks [] (split_blocks file_text).
Proof. reflexivity. Qed.

Lemma parse_step_record (subtitles : list Subtitle) (block : string) :
  parse_step subtitles block =
  inr (subtitles ++ option_list (block_record block)).
Proof.
  unfold parse_step, block_record.
  destruct (String.eqb (Py.strip block) EmptyString);
    [simpl; rewrite app_nil_r; reflexivity|].
  destruct (length (Py.split LF (Py.strip block)) <? 3)%nat;
    [simpl; rewrite app_nil_r; reflexivity|].
  destruct (parse_block (Py.split LF (Py.strip block))) as [e|[sub|]] eqn:Hb;
    simpl; rewrite ?app_nil_r; try reflexivity.
  rewrite (parse_block_handled _ _ Hb). reflexivity.
Qed.

Lemma parse_blocks_records (blocks : list string) (subtitles : list Subtitle) :
  parse_blocks subtitles blocks = inr (subtitles ++ omap block_record blocks).
Proof.
  revert subtitles. induction blocks as [|block rest IH]; intros subtitles.
  - simpl. rewrite app_nil_r. reflexivity.
  - simpl parse_blocks. rewrite parse_step_record. simpl Py.bind.
    rewrite IH, <- app_assoc. f_equal. f_equal. simpl omap.
    destruct (block_record block); reflexivity.
Qed.

(** The track is made of the records of the blocks, in the order of the
    blocks. *)
Lemma parse_srt_file_records (file_text : string) :
  parse_srt_file file_text = inr (omap block_record (split_blocks file_text)).
Proof. rewrite parse_srt_file_blocks, parse_blocks_records. reflexivity. Qed.

Lemma block_record_Some (block : string) (sub : Subtitle) :
  block_record block = Some sub ->
  let lines := Py.split LF (Py.strip block) in
  (3 <= length lines)%nat /\ parse_block lines = inr (Some sub).
Proof.
  unfold block_record.
  destruct (String.eqb (Py.strip block) EmptyString); [discriminate|].
  destruct (Nat.ltb_spec (length (Py.split LF (Py.strip block))) 3);
    [discriminate|].
  destruct (parse_block (Py.split LF (Py.strip block))) as [e|[s|]];
    try discriminate.
  intros [= <-]. split; [assumption|reflexivity].
Qed.

(** X1: every record of a parsed track comes from one block of the file with
    at least three lines: its sequence number is [int] of the first line, its
    [timestamp_ms] is the decoded value of its own [start_time], and its text
    is the third and later lines joined by line feeds. *)
Theorem parse_srt_file_record_invariant (file_text : string)
    (track : list Subtitle) (sub : Subtitle) :
  parse_srt_file file_text = inr track ->
  In sub track ->
  parse_timestamp (start_time sub) = inr (timestamp_ms sub) /\
  exists block,
    In block (split_blocks file_text) /\
    let lines := Py.split LF (Py.strip block) in
    (3 <= length lines)%nat /\
    Py.int (nth 0 lines EmptyString) = inr (index sub) /\
    text sub = Py.join LF (skipn 2 lines).
Proof.
  rewrite parse_srt_file_records. intros [= <-] Hin.
  apply list_elem_of_In, list_elem_of_omap in Hin.
  destruct Hin as (block & Hblock & Hrec).
  apply list_elem_of_In in Hblock.
  apply block_record_Some in Hrec. destruct Hrec as [Hlen Hparse].
  apply parse_block_Some in Hparse.
  destruct Hparse as (idx & st & en & ms & Hint & _ & _ & Hts & ->).
  simpl. split; [exact Hts|].
  exists block. split; [exact Hblock|]. split; [exact Hlen|].
  split; [exact Hint|reflexivity].
Qed.

Lemma lstrip_all_space (s : string) :
  all_space s = true -> Py.lstrip s = EmptyString.
Proof.
  induction s as [|c s IH]; simpl; [reflexivity|].
  destruct (Py.isspace c); [exact IH|discriminate].
Qed.

(** X2: a file that is empty or holds only whitespace parses to the empty
    track. *)
Theorem parse_srt_file_blank (file_text : string) :
  all_space file_text = true -> parse_srt_file file_text = inr [].
Proof.
  intros Hblank. rewrite parse_srt_file_records. unfold split_blocks, Py.strip.
  rewrite (lstrip_all_space _ Hblank). reflexivity.
Qed.

Lemma parse_srt_file_blank_witness :
  parse_srt_file (LF ++ "   " ++ LF ++ LF)%string = inr [].
Proof.
  apply (parse_srt_file_blank (LF ++ "   " ++ LF ++ LF)%string).
  reflexivity.
Defined.

(** ** The track index: the last record wins *)

(** X3: the index maps a sequence number to the last record of the track that
    carries it, and to nothing when no record carries it. *)
Theorem by_index_last_wins (subs : list Subtitle) (i : Z) :
  by_index subs !! i = last (List.filter (fun s => index s =? i) subs).
Proof.
  induction subs as [|x subs IH] using rev_ind; [reflexivity|].
  rewrite by_index_snoc, List.filter_app, lookup_insert. simpl.
  case_decide as Hi.
  - destruct (Z.eqb_spec (index x) i); [|congruence].
    rewrite last_snoc. reflexivity.
  - destruct (Z.eqb_spec (index x) i); [congruence|].
    rewrite app_nil_r. exact IH.
Qed.

(** ** The sync-boundary finder: the boundary is the last run of five *)

Lemma max_raises (l : list Z) (e : Py.exn) :
  Py.max l = inl e -> l = [] /\ e = Py.ValueError.
Proof. destruct l; [intros [= <-]; auto|discriminate]. Qed.

Lemma max_index_keys (subs : list Subtitle) (m : Z) :
  Py.max (keys (by_index subs)) = inr m -> max_index subs m.
Proof.
  intros Hm. destruct (max_inr _ _ Hm) as [Hin Hmax]. split.
  - apply in_keys in Hin. destruct Hin as [s Hs].
    apply by_index_Some in Hs. exists s. exact Hs.
  - intros s Hs. apply Hmax, in_keys, by_index_is_Some, Hs.
Qed.

Lemma max_index_unique (subs : list Subtitle) (m m' : Z) :
  max_index subs m -> max_index subs m' -> m = m'.
Proof.
  intros [(s & Hs & <-) Hm] [(s' & Hs' & <-) Hm'].
  specialize (Hm _ Hs'). specialize (Hm' _ Hs). lia.
Qed.

Lemma sync_step_inv_exact (en_subs es_subs : list Subtitle) (i : Z)
    (st : sync_state) :
  1 <= i ->
  sync_inv_exact en_subs es_subs i st ->
  sync_inv_exact en_subs es_subs (i + 1)
    (sync_step (by_index en_subs) (by_index es_subs) st i).
Proof.
  intros Hi (Hc & Hrun & Hmaxrun & Hlast & Hcomplete).
  assert (Hbroken : ~ aligned_at en_subs es_subs i ->
            sync_inv_exact en_subs es_subs (i + 1)
              {| last_good := last_good st; consecutive_good := 0 |}).
  { intros Hnot. unfold sync_inv_exact. simpl.
    split; [lia|]. split; [intros j Hj; lia|].
    split; [right; replace (i + 1 - 1 - 0) with i by lia; exact Hnot|].
    split; [destruct Hlast as [H0|[H5 Hr]]; [left; exact H0|right; split;
              [lia|exact Hr]]|].
    intros j Hj Hr. destruct (Z.eq_dec j i) as [->|Hne].
    - exfalso. apply Hnot, Hr. lia.
    - apply Hcomplete; [lia|exact Hr]. }
  unfold sync_step.
  destruct (by_index en_subs !! i) as [a|] eqn:Ha;
    [destruct (by_index es_subs !! i) as [b|] eqn:Hb|].
  - destruct (Z.leb_spec (Z.abs (timestamp_ms a - timestamp_ms b)) 500)
      as [Hd|Hd].
    + assert (Hali : aligned_at en_subs es_subs i) by (exists a, b; auto).
      assert (Hrun' : forall j,
                i + 1 - (consecutive_good st + 1) <= j < i + 1 ->
                aligned_at en_subs es_subs j).
      { intros j Hj. destruct (Z.eq_dec j i) as [->|Hne];
          [exact Hali|apply Hrun; lia]. }
      assert (Hmaxrun' : consecutive_good st + 1 = i + 1 - 1 \/
                ~ aligned_at en_subs es_subs
                    (i + 1 - 1 - (consecutive_good st + 1))).
      { destruct Hmaxrun as [Heq|Hnot]; [left; lia|right].
        replace (i + 1 - 1 - (consecutive_good st + 1))
          with (i - 1 - consecutive_good st) by lia. exact Hnot. }
      destruct (Z.leb_spec 5 (consecutive_good st + 1)) as [H5|H5];
        unfold sync_inv_exact; simpl;
        (split; [lia|]); (split; [exact Hrun'|]); (split; [exact Hmaxrun'|]).
      * split; [right; split; [lia|intros k Hk; apply Hrun'; lia]|].
        intros j Hj _. lia.
      * split; [destruct Hlast as [H0|[Hl Hr]]; [left; exact H0|right; split;
                  [lia|exact Hr]]|].
        intros j Hj Hr. destruct (Z.eq_dec j i) as [->|Hne];
          [|apply Hcomplete; [lia|exact Hr]].
        exfalso. destruct Hmaxrun' as [Heq|Hnot]; [lia|].
        apply Hnot, Hr. lia.
    + apply Hbroken. intros (a' & b' & Ha' & Hb' & Hd').
      rewrite Ha in Ha'. rewrite Hb in Hb'.
      injection Ha' as <-. injection Hb' as <-. lia.
  - apply Hbroken. intros (a' & b' & _ & Hb' & _). congruence.
  - apply Hbroken. intros (a' & b' & Ha' & _). congruence.
Qed.

Lemma sync_loop_exact (en_subs es_subs : list Subtitle) (hi : Z) :
  let L := last_good (sync_loop en_subs es_subs hi) in
  (L = 0 \/ 5 <= L <= hi /\ run_of_five en_subs es_subs L) /\
  forall j, 5 <= j <= hi -> run_of_five en_subs es_subs j -> j <= L.
Proof.
  unfold sync_loop. destruct (Z.le_gt_cases 1 (hi + 1)) as [Hle|Hgt].
  - pose proof (range_fold_ind
                  (sync_step (by_index en_subs) (by_index es_subs))
                  (sync_inv_exact en_subs es_subs) 1 (hi + 1)
                  {| last_good := 0; consecutive_good := 0 |} Hle) as Hind.
    destruct Hind as (_ & _ & _ & Hlast & Hcomplete).
    + unfold sync_inv_exact. simpl. split; [lia|].
      split; [intros j Hj; lia|]. split; [left; reflexivity|].
      split; [left; reflexivity|]. intros j Hj. lia.
    + intros i st Hi Hinv. apply sync_step_inv_exact; [lia|exact Hinv].
    + split.
      * destruct Hlast as [H0|[Hl Hr]]; [left; exact H0|].
        right. split; [lia|exact Hr].
      * intros j Hj Hr. apply Hcomplete; [lia|exact Hr].
  - rewrite range_empty by lia. simpl. split; [left; reflexivity|].
    intros j Hj. lia.
Qed.

(** X4: for two non-empty tracks whose largest sequence numbers are [m_en]
    and [m_es], the returned boundary is the last sequence number [j] with
    [5 <= j <= min m_en m_es] such that [j-4 .. j] are all aligned (both
    records present, at most 500 ms apart), and 0 when there is none. *)
Theorem find_last_good_sync_last_run (en_subs es_subs : list Subtitle)
    (m_en m_es : Z) :
  max_index en_subs m_en ->
  max_index es_subs m_es ->
  exists L,
    find_last_good_sync en_subs es_subs = inr L /\
    (L = 0 \/
     5 <= L <= Z.min m_en m_es /\ run_of_five en_subs es_subs L) /\
    forall j, 5 <= j <= Z.min m_en m_es ->
              run_of_five en_subs es_subs j -> j <= L.
Proof.
  intros Hen Hes.
  assert (Hne : en_subs <> []).
  { destruct Hen as [(s & Hs & _) _]. intros ->. destruct Hs. }
  assert (Hne' : es_subs <> []).
  { destruct Hes as [(s & Hs & _) _]. intros ->. destruct Hs. }
  destruct (find_last_good_sync_nonempty _ _ Hne Hne')
    as (m1 & m2 & H1 & H2 & ->).
  rewrite (max_index_unique _ _ _ Hen (max_index_keys _ _ H1)).
  rewrite (max_index_unique _ _ _ Hes (max_index_keys _ _ H2)).
  eexists. split; [reflexivity|]. apply sync_loop_exact.
Qed.

Lemma sync_step_sym (E C : gmap Z Subtitle) (st : sync_state) (i : Z) :
  sync_step E C st i = sync_step C E st i.
Proof.
  unfold sync_step. destruct (E !! i) as [a|]; destruct (C !! i) as [b|];
    try reflexivity.
  replace (Z.abs (timestamp_ms b - timestamp_ms a))
    with (Z.abs (timestamp_ms a - timestamp_ms b)) by lia.
  reflexivity.
Qed.

Lemma fold_left_ext_eq {A B : Type} (f g : A -> B -> A) (l : list B) (a : A) :
  (forall x y, f x y = g x y) -> fold_left f l a = fold_left g l a.
Proof.
  intros H. revert a. induction l as [|y l IH]; intros a; simpl;
    [reflexivity|]. rewrite H. apply IH.
Qed.

(** X5: the boundary finder does not depend on which track is called the
    reference: swapping the two tracks gives the same boundary, or the same
    exception. *)
Theorem find_last_good_sync_sym (en_subs es_subs : list Subtitle) :
  find_last_good_sync en_subs es_subs = find_last_good_sync es_subs en_subs.
Proof.
  rewrite !find_last_good_sync_unfold.
  destruct (Py.max (keys (by_index en_subs))) as [e1|m1] eqn:H1;
    destruct (Py.max (keys (by_index es_subs))) as [e2|m2] eqn:H2; simpl.
  - destruct (max_raises _ _ H1) as [_ ->].
    destruct (max_raises _ _ H2) as [_ ->]. reflexivity.
  - destruct (max_raises _ _ H1) as [_ ->]. reflexivity.
  - destruct (max_raises _ _ H2) as [_ ->]. reflexivity.
  - unfold sync_loop. rewrite (Z.min_comm m2 m1). f_equal. f_equal.
    apply fold_left_ext_eq. intros st i. apply sync_step_sym.
Qed.

(** ** The range verifier: when a range is clean, and how indices add up *)

Lemma flat_map_nil {A B : Type} (f : A -> list B) (l : list A) :
  flat_map f l = [] <-> forall x, In x l -> f x = [].
Proof.
  induction l as [|a l IH]; simpl.
  - split; [intros _ x []|reflexivity].
  - split.
    + intros H. apply app_eq_nil in H. destruct H as [Ha Hl].
      intros x [<-|Hx]; [exact Ha|]. apply IH; assumption.
    + intros H. rewrite (H a (or_introl eq_refl)). apply IH.
      intros x Hx. apply H. right. exact Hx.
Qed.

Lemma errors_nil (en_subs es_subs : list Subtitle) (start_range end_range : Z) :
  errors (verify_range_loop en_subs es_subs start_range end_range) = [] <->
  forall i, start_range <= i <= end_range ->
    errors (verify_delta (by_index en_subs) (by_index es_subs)
              start_range i) = [].
Proof.
  unfold verify_range_loop. rewrite verify_fold_errors. simpl.
  rewrite flat_map_nil. split; intros H i Hi; apply H.
  - apply in_range. lia.
  - apply in_range in Hi. lia.
Qed.

(** When a range is clean, index by index. *)
Lemma clean_range_iff (en_subs es_subs : list Subtitle)
    (start_range end_range : Z) :
  verify_range_sync en_subs es_subs start_range end_range = true <->
  forall i, start_range <= i <= end_range ->
    exists en_sub es_sub,
      by_index en_subs !! i = Some en_sub /\
      by_index es_subs !! i = Some es_sub /\
      Z.abs (timestamp_ms en_sub - timestamp_ms es_sub) <= 100 /\
      (start_range < i ->
       forall prev_es, by_index es_subs !! (i - 1) = Some prev_es ->
                       timestamp_ms prev_es <= timestamp_ms es_sub).
Proof.
  rewrite verify_range_sync_true, errors_nil.
  split; intros H i Hi; specialize (H i Hi).
  - destruct (by_index en_subs !! i) as [a|] eqn:Ha;
      [|rewrite (verify_delta_no_reference _ _ _ _ Ha) in H; discriminate].
    destruct (by_index es_subs !! i) as [b|] eqn:Hb;
      [|rewrite (verify_delta_no_candidate _ _ _ _ _ Ha Hb) in H;
        discriminate].
    rewrite (verify_delta_present _ _ _ _ _ _ Ha Hb) in H. simpl in H.
    apply app_eq_nil in H. destruct H as [Hd Ho].
    exists a, b. split; [reflexivity|]. split; [reflexivity|]. split.
    + destruct (Z.ltb_spec 100 (Z.abs (timestamp_ms a - timestamp_ms b)));
        [discriminate|lia].
    + intros Hlt p Hp. unfold out_of_order in Ho. rewrite Hp in Ho.
      destruct (Z.ltb_spec start_range i); [|lia].
      destruct (Z.ltb_spec (timestamp_ms b) (timestamp_ms p));
        [discriminate|lia].
  - destruct H as (a & b & Ha & Hb & Hd & Ho).
    rewrite (verify_delta_present _ _ _ _ _ _ Ha Hb). simpl.
    destruct (Z.ltb_spec 100 (Z.abs (timestamp_ms a - timestamp_ms b)));
      [lia|].
    unfold out_of_order. destruct (Z.ltb_spec start_range i); [|reflexivity].
    destruct (by_index es_subs !! (i - 1)) as [p|] eqn:Hp; [|reflexivity].
    specialize (Ho ltac:(lia) p eq_refl).
    destruct (Z.ltb_spec (timestamp_ms b) (timestamp_ms p));
      [lia|reflexivity].
Qed.

(** X6: the range is clean exactly when every index of the window has both
    records, their starts differ by at most 100 ms, and, after the first
    index, the candidate record does not start before the candidate record of
    the previous index. In particular an empty window is clean. *)
Theorem verify_range_sync_clean_iff (en_subs es_subs : list Subtitle)
    (start_range end_range : Z) :
  verify_range_sync en_subs es_subs start_range end_range = true <->
  forall i, start_range <= i <= end_range ->
    exists en_sub es_sub,
      by_index en_subs !! i = Some en_sub /\
      by_index es_subs !! i = Some es_sub /\
      Z.abs (timestamp_ms en_sub - timestamp_ms es_sub) <= 100 /\
      (start_range < i ->
       forall prev_es, by_index es_subs !! (i - 1) = Some prev_es ->
                       timestamp_ms prev_es <= timestamp_ms es_sub).
Proof. apply clean_range_iff. Qed.

Lemma verdicts_delta (E C : gmap Z Subtitle) (start_range i : Z) :
  verdicts (verify_delta E C start_range i) = 1.
Proof.
  unfold verdicts, verify_delta, verify_step.
  destruct (E !! i) as [a|]; [destruct (C !! i) as [b|]|]; try reflexivity.
  destruct (100 <? _); [|destruct (50 <? _)];
    (destruct (start_range <? i); [destruct (C !! (i - 1)) as [p|];
       [destruct (timestamp_ms b <? timestamp_ms p)|]|]);
    reflexivity.
Qed.

Lemma verdicts_add (st d : verify_state) :
  verdicts (verify_add st d) = verdicts st + verdicts d.
Proof.
  unfold verdicts, verify_add. simpl.
  rewrite List.filter_app, !length_app. lia.
Qed.

Lemma verdicts_fold (E C : gmap Z Subtitle) (start_range : Z) (l : list Z)
    (st : verify_state) :
  verdicts (fold_left (verify_step E C start_range) l st) =
  verdicts st + Z.of_nat (length l).
Proof.
  revert st. induction l as [|i l IH]; intros st.
  - simpl. lia.
  - simpl fold_left. rewrite IH, verify_step_add, verdicts_add, verdicts_delta.
    simpl length. lia.
Qed.

(** X7: every index of the window is counted once: the good indices, the
    warnings and the errors other than order errors add up to the size of the
    window, [end - start + 1], or 0 for an empty window. *)
Theorem verify_range_accounting (en_subs es_subs : list Subtitle)
    (start_range end_range : Z) :
  let st := verify_range_loop en_subs es_subs start_range end_range in
  good_count st + Z.of_nat (length (warnings st)) +
  Z.of_nat (length (List.filter (fun m => negb (is_order_error m))
                      (errors st))) =
  Z.max 0 (end_range - start_range + 1).
Proof.
  intros st. change (verdicts st = Z.max 0 (end_range - start_range + 1)).
  unfold st, verify_range_loop. rewrite verdicts_fold.
  unfold Py.range. rewrite length_map, length_seq. unfold verdicts. simpl. lia.
Qed.

(** ** The classifier: the buckets as lists *)

Lemma no_candidate_near_spec (es_subs : list Subtitle) (en_sub : Subtitle) :
  no_candidate_near es_subs en_sub = true <->
  forall c, In c es_subs -> 500 < distance en_sub c.
Proof.
  unfold no_candidate_near. rewrite forallb_forall.
  split; intros H c Hc; specialize (H c Hc); lia.
Qed.

Lemma missing_of_delta (es_subs : list Subtitle) (r : Subtitle) :
  missing_in_es (issue_delta (build_es_by_time es_subs) r) =
  if no_candidate_near es_subs r then [r] else [].
Proof.
  destruct (no_candidate_near es_subs r) eqn:Hnear.
  - pose proof (proj1 (no_candidate_near_spec _ _) Hnear) as Hall.
    pose proof (proj2 (no_close_match _ _) Hall) as Hclose.
    destruct (issue_delta_shape es_subs r)
      as [_ _|? ? _ Hcl _|? ? _ Hcl _|c ? Hc _|c ? Hc _];
      try reflexivity; try congruence;
      exfalso;
      assert (Hin : In c (records_at es_subs (timestamp_ms r)))
        by (rewrite Hc; left; reflexivity);
      apply in_records_at in Hin; destruct Hin as [Hin Ht];
      specialize (Hall c Hin); unfold distance in Hall; lia.
  - destruct (issue_delta_shape es_subs r) as [_ Hcl| | | |];
      try reflexivity.
    pose proof (proj1 (no_close_match _ _) Hcl) as Hall.
    pose proof (proj2 (no_candidate_near_spec _ _) Hall). congruence.
Qed.

Lemma flat_map_filter {A : Type} (p : A -> bool) (l : list A) :
  flat_map (fun x => if p x then [x] else []) l = List.filter p l.
Proof.
  induction l as [|a l IH]; simpl; [reflexivity|].
  rewrite IH. destruct (p a); reflexivity.
Qed.

(** X8: [missing_in_es] is the list of the reference records that have no
    candidate within 500 ms, in the order of the reference track and as often
    as they occur in it. *)
Theorem missing_in_es_filter (en_subs es_subs : list Subtitle) :
  missing_in_es (find_sync_issues en_subs es_subs) =
  List.filter (no_candidate_near es_subs) en_subs.
Proof.
  rewrite find_sync_issues_buckets. simpl.
  rewrite <- flat_map_filter. apply flat_map_ext.
  intros r. apply missing_of_delta.
Qed.

(** X9: against an empty candidate track every reference record is missing
    and the three other buckets are empty. *)
Theorem find_sync_issues_no_candidates (en_subs : list Subtitle) :
  find_sync_issues en_subs [] =
  {| missing_in_es := en_subs; duplicates_in_es := [];
     time_drifts := []; index_mismatches := [] |}.
Proof.
  unfold find_sync_issues, build_es_by_time. simpl.
  enough (H : forall l acc,
            fold_left (issue_step []) l
              {| missing_in_es := acc; duplicates_in_es := [];
                 time_drifts := []; index_mismatches := [] |} =
            {| missing_in_es := acc ++ l; duplicates_in_es := [];
               time_drifts := []; index_mismatches := [] |})
    by apply (H en_subs []).
  induction l as [|r l IH]; intros acc; simpl.
  - rewrite app_nil_r. reflexivity.
  - unfold issue_step at 2. simpl. rewrite IH, <- app_assoc. reflexivity.
Qed.

Lemma records_at_unique (subs : list Subtitle) (r : Subtitle) :
  List.NoDup (map timestamp_ms subs) -> In r subs ->
  records_at subs (timestamp_ms r) = [r].
Proof.
  unfold records_at. induction subs as [|a subs IH]; simpl; [tauto|].
  intros Hnd Hin. apply List.NoDup_cons_iff in Hnd. destruct Hnd as [Hnot Hnd].
  destruct Hin as [->|Hin].
  - rewrite Z.eqb_refl. f_equal. apply filter_none.
    intros x Hx. apply Z.eqb_neq. intros Heq. apply Hnot.
    rewrite <- Heq. apply in_map. exact Hx.
  - destruct (Z.eqb_spec (timestamp_ms a) (timestamp_ms r)) as [Heq|_].
    + exfalso. apply Hnot. rewrite Heq. apply in_map. exact Hin.
    + apply IH; assumption.
Qed.

Lemma flat_map_all_nil {A B : Type} (f : A -> list B) (l : list A) :
  (forall x, In x l -> f x = []) -> flat_map f l = [].
Proof. apply flat_map_nil. Qed.

(** X10: a track compared with itself has no missing record and no time
    drift; if moreover no two of its records start at the same time, all four
    buckets are empty. *)
Theorem find_sync_issues_same_track (subs : list Subtitle) :
  missing_in_es (find_sync_issues subs subs) = [] /\
  time_drifts (find_sync_issues subs subs) = [] /\
  (List.NoDup (map timestamp_ms subs) ->
   find_sync_issues subs subs = issues_init).
Proof.
  assert (Hexact : forall r, In r subs ->
            exists c rest, records_at subs (timestamp_ms r) = c :: rest).
  { intros r Hr.
    assert (Hin : In r (records_at subs (timestamp_ms r)))
      by (apply in_records_at; auto).
    destruct (records_at subs (timestamp_ms r)) as [|c rest];
      [destruct Hin|eauto]. }
  rewrite find_sync_issues_buckets. simpl.
  split; [|split].
  - apply flat_map_all_nil. intros r Hr.
    destruct (Hexact r Hr) as (c & rest & Hc).
    destruct (issue_delta_shape subs r); try reflexivity; congruence.
  - apply flat_map_all_nil. intros r Hr.
    destruct (Hexact r Hr) as (c & rest & Hc).
    destruct (issue_delta_shape subs r); try reflexivity; congruence.
  - intros Hnd.
    assert (Hdelta : forall r, In r subs ->
              issue_delta (build_es_by_time subs) r = issues_init).
    { intros r Hr. pose proof (records_at_unique subs r Hnd Hr) as Hone.
      destruct (issue_delta_shape subs r) as [Hc _|? ? Hc _ _|? ? Hc _ _
                                              |c rest Hc Hidx|c rest Hc Hidx];
        try congruence;
        rewrite Hone in Hc; injection Hc as <- <-;
        first [congruence|reflexivity]. }
    unfold issues_init. f_equal; apply flat_map_all_nil;
      intros r Hr; rewrite (Hdelta r Hr); reflexivity.
Qed.

Lemma length_flat_map_le {A B : Type} (f : A -> list B) (l : list A) (n : nat) :
  (forall x, (length (f x) <= n)%nat) ->
  (length (flat_map f l) <= n * length l)%nat.
Proof.
  intros H. induction l as [|a l IH]; simpl; [lia|].
  rewrite length_app. specialize (H a). lia.
Qed.

(** X11: a reference record makes at most one entry in the three buckets
    that hold reference records, so these buckets together have at most as
    many entries as the reference track has records. *)
Theorem find_sync_issues_at_most_one_entry (en_subs es_subs : list Subtitle) :
  let iss := find_sync_issues en_subs es_subs in
  (length (missing_in_es iss) + length (time_drifts iss) +
   length (index_mismatches iss) <= length en_subs)%nat.
Proof.
  rewrite find_sync_issues_buckets. simpl.
  induction en_subs as [|r en_subs IH]; simpl; [lia|].
  rewrite !length_app.
  assert (Hone : (length (missing_in_es
                            (issue_delta (build_es_by_time es_subs) r)) +
                  length (time_drifts
                            (issue_delta (build_es_by_time es_subs) r)) +
                  length (index_mismatches
                            (issue_delta (build_es_by_time es_subs) r))
                  <= 1)%nat).
  { destruct (issue_delta_shape es_subs r); simpl; lia. }
  lia.
Qed.

(** X12: a candidate record is in [duplicates_in_es] exactly when some
    reference record starts at a timestamp at which the candidate is a
    non-first record; candidates that share a timestamp no reference record
    has are never reported as duplicates. *)
Theorem duplicates_in_es_iff (en_subs es_subs : list Subtitle) (c : Subtitle) :
  In c (duplicates_in_es (find_sync_issues en_subs es_subs)) <->
  exists r, In r en_subs /\ timestamp_ms r = timestamp_ms c /\
            In c (tl (records_at es_subs (timestamp_ms c))).
Proof.
  rewrite duplicates_in_es_flat_map, in_flat_map. split.
  - intros (r & Hr & Hc). exists r. split; [exact Hr|].
    assert (Ht : timestamp_ms c = timestamp_ms r).
    { apply in_tl, in_records_at in Hc. tauto. }
    split; [congruence|]. rewrite Ht. exact Hc.
  - intros (r & Hr & Ht & Hc). exists r. split; [exact Hr|].
    rewrite Ht. exact Hc.
Qed.

(** ** Block extraction *)

Lemma getitem_0 (lines : list string) :
  (3 <= length lines)%nat ->
  Py.getitem lines 0 = inr (nth 0 lines EmptyString).
Proof. destruct lines; simpl; [lia|reflexivity]. Qed.

(** The three loops read a block in the same way. *)
Lemma extract_step_index (n : Z) (good_blocks : list string) (block : string) :
  extract_step n good_blocks block =
  inr match block_index block with
      | Some i =>
          if i <=? n then (good_blocks ++ [Py.strip block], Next)
          else (good_blocks, Break)
      | None => (good_blocks, Next)
      end.
Proof.
  unfold extract_step, block_index.
  destruct (String.eqb (Py.strip block) EmptyString); [reflexivity|].
  destruct (Nat.ltb_spec (length (Py.split LF (Py.strip block))) 3) as [|Hlen];
    [reflexivity|].
  rewrite (getitem_0 _ Hlen). simpl.
  destruct (Py.int (nth 0 (Py.split LF (Py.strip block)) EmptyString))
    as [e|i] eqn:Hint; simpl.
  - rewrite (int_raises _ _ Hint). reflexivity.
  - destruct (i <=? n); reflexivity.
Qed.

Lemma get_block_step_index (index : Z) (block : string) :
  get_block_step index block =
  inr match block_index block with
      | Some i => if i =? index then Some (Py.strip block) else None
      | None => None
      end.
Proof.
  unfold get_block_step, block_index.
  destruct (String.eqb (Py.strip block) EmptyString); [reflexivity|].
  destruct (Nat.ltb_spec (length (Py.split LF (Py.strip block))) 3) as [|Hlen];
    [reflexivity|].
  rewrite (getitem_0 _ Hlen). simpl.
  destruct (Py.int (nth 0 (Py.split LF (Py.strip block)) EmptyString))
    as [e|i] eqn:Hint; simpl.
  - rewrite (int_raises _ _ Hint). reflexivity.
  - destruct (i =? index); reflexivity.
Qed.

Lemma collect_step_index (start_index end_index : Z)
    (acc : list (Z * string)) (block : string) :
  collect_step start_index end_index acc block =
  inr match block_index block with
      | Some i =>
          if (start_index <=? i) && (i <=? end_index)
          then acc ++ [(i, Py.strip block)] else acc
      | None => acc
      end.
Proof.
  unfold collect_step, block_index.
  destruct (String.eqb (Py.strip block) EmptyString); [reflexivity|].
  destruct (Nat.ltb_spec (length (Py.split LF (Py.strip block))) 3) as [|Hlen];
    [reflexivity|].
  rewrite (getitem_0 _ Hlen). simpl.
  destruct (Py.int (nth 0 (Py.split LF (Py.strip block)) EmptyString))
    as [e|i] eqn:Hint; simpl.
  - rewrite (int_raises _ _ Hint). reflexivity.
  - destruct ((start_index <=? i) && (i <=? end_index)); reflexivity.
Qed.

Lemma block_record_index (block : string) (sub : Subtitle) :
  block_record block = Some sub -> block_index block = Some (index sub).
Proof.
  intros Hrec. pose proof (block_record_Some _ _ Hrec) as [Hlen Hparse].
  apply parse_block_Some in Hparse.
  destruct Hparse as (idx & st & en & ms & Hint & _ & _ & _ & ->).
  unfold block_index. unfold block_record in Hrec.
  destruct (String.eqb (Py.strip block) EmptyString); [discriminate|].
  destruct (Nat.ltb_spec (length (Py.split LF (Py.strip block))) 3); [lia|].
  rewrite Hint. reflexivity.
Qed.

(** The stripped blocks that carry a sequence number. *)
Lemma extract_loop_split (n : Z) (blocks : list string)
    (good_blocks : list string) :
  exists pre post,
    blocks = pre ++ post /\
    (forall b i, In b pre -> block_index b = Some i -> i <= n) /\
    match post with
    | [] => True
    | b :: _ => exists i, block_index b = Some i /\ n < i
    end /\
    extract_loop n good_blocks blocks =
    inr (good_blocks ++
         omap (fun b => (fun _ => Py.strip b) <$> block_index b) pre).
Proof.
  revert good_blocks. induction blocks as [|block rest IH]; intros good_blocks.
  - exists [], []. simpl. rewrite app_nil_r. repeat split; tauto.
  - simpl extract_loop. rewrite extract_step_index. simpl Py.bind.
    destruct (block_index block) as [i|] eqn:Hidx.
    + destruct (Z.leb_spec i n) as [Hle|Hgt].
      * destruct (IH (good_blocks ++ [Py.strip block]))
          as (pre & post & -> & Hpre & Hpost & ->).
        exists (block :: pre), post. split; [reflexivity|]. split; [|split].
        -- intros b j [<-|Hb] Hj; [congruence|]. exact (Hpre b j Hb Hj).
        -- exact Hpost.
        -- simpl omap. rewrite Hidx. simpl. rewrite <- app_assoc. reflexivity.
      * exists [], (block :: rest). simpl. rewrite app_nil_r.
        split; [reflexivity|]. split; [tauto|]. split; [|reflexivity].
        exists i. split; [exact Hidx|lia].
    + destruct (IH good_blocks) as (pre & post & -> & Hpre & Hpost & ->).
      exists (block :: pre), post. split; [reflexivity|]. split; [|split].
      * intros b j [<-|Hb] Hj; [congruence|]. exact (Hpre b j Hb Hj).
      * exact Hpost.
      * simpl omap. rewrite Hidx. reflexivity.
Qed.

(** X13: [extract_first_n_subtitles] never raises. It cuts the blocks of the
    file before the first block whose number exceeds [n] (later blocks are
    ignored, whatever their numbers), keeps the stripped numbered blocks
    before the cut in file order, writes them joined by blank lines, with a
    final line feed unless nothing is kept, and returns how many were
    kept. *)
Theorem extract_first_n_subtitles_spec (file_text : string) (n : Z) :
  exists pre post good_blocks,
    split_blocks file_text = pre ++ post /\
    (forall b i, In b pre -> block_index b = Some i -> i <= n) /\
    match post with
    | [] => True
    | b :: _ => exists i, block_index b = Some i /\ n < i
    end /\
    good_blocks = omap (fun b => (fun _ => Py.strip b) <$> block_index b) pre /\
    extract_first_n_subtitles file_text n =
    inr ((Py.join (LF ++ LF) good_blocks ++
          match good_blocks with [] => EmptyString | _ => LF end)%string,
         Z.of_nat (length good_blocks)).
Proof.
  unfold extract_first_n_subtitles.
  destruct (extract_loop_split n (split_blocks file_text) [])
    as (pre & post & Hsplit & Hpre & Hpost & Hloop).
  exists pre, post. eexists. split; [exact Hsplit|]. split; [exact Hpre|].
  split; [exact Hpost|]. split; [reflexivity|].
  rewrite Hloop. reflexivity.
Qed.

Lemma extract_loop_mono (n n' : Z) (blocks : list string)
    (good_blocks : list string) :
  n <= n' ->
  exists kept more,
    extract_loop n good_blocks blocks = inr (good_blocks ++ kept) /\
    extract_loop n' good_blocks blocks = inr (good_blocks ++ kept ++ more).
Proof.
  intros Hn. revert good_blocks.
  induction blocks as [|block rest IH]; intros good_blocks.
  - exists [], []. simpl. rewrite app_nil_r. auto.
  - destruct (block_index block) as [i|] eqn:Hidx;
      [destruct (Z.leb_spec i n) as [Hle|Hgt]|].
    + destruct (IH (good_blocks ++ [Py.strip block]))
        as (kept & more & Hk & Hm).
      exists (Py.strip block :: kept), more.
      simpl extract_loop. rewrite !extract_step_index, Hidx. simpl Py.bind.
      destruct (Z.leb_spec i n); [|lia]. destruct (Z.leb_spec i n'); [|lia].
      rewrite Hk, Hm, <- !app_assoc. auto.
    + destruct (extract_loop_split n' (block :: rest) good_blocks)
        as (pre & post & _ & _ & _ & Hloop).
      exists [], (omap (fun b => (fun _ => Py.strip b) <$> block_index b) pre).
      split; [|exact Hloop].
      simpl extract_loop. rewrite extract_step_index, Hidx. simpl Py.bind.
      destruct (Z.leb_spec i n); [lia|]. rewrite app_nil_r. reflexivity.
    + destruct (IH good_blocks) as (kept & more & Hk & Hm).
      exists kept, more.
      simpl extract_loop. rewrite !extract_step_index, Hidx. simpl Py.bind.
      auto.
Qed.

(** X14: raising the bound only adds blocks at the end: for [n <= n'] the
    blocks kept for [n] are a prefix of the blocks kept for [n'], and the
    returned count does not decrease. *)
Theorem extract_first_n_subtitles_mono (file_text : string) (n n' : Z) :
  n <= n' ->
  exists kept more written written',
    extract_loop n [] (split_blocks file_text) = inr kept /\
    extract_loop n' [] (split_blocks file_text) = inr (kept ++ more) /\
    extract_first_n_subtitles file_text n =
      inr (written, Z.of_nat (length kept)) /\
    extract_first_n_subtitles file_text n' =
      inr (written', Z.of_nat (length kept) + Z.of_nat (length more)).
Proof.
  intros Hn.
  destruct (extract_loop_mono n n' (split_blocks file_text) [] Hn)
    as (kept & more & Hk & Hm).
  simpl in Hk, Hm. exists kept, more.
  unfold extract_first_n_subtitles. rewrite Hk, Hm. simpl.
  rewrite length_app, Nat2Z.inj_add.
  eexists. eexists. repeat split; reflexivity.
Qed.

Lemma get_block_loop_spec (index : Z) (blocks : list string) :
  (exists pre block post,
     blocks = pre ++ block :: post /\
     (forall b, In b pre -> block_index b <> Some index) /\
     block_index block = Some index /\
     get_block_loop index blocks = inr (Some (Py.strip block))) \/
  (forall b, In b blocks -> block_index b <> Some index) /\
  get_block_loop index blocks = inr None.
Proof.
  induction blocks as [|block rest IH].
  - right. split; [intros b []|reflexivity].
  - simpl get_block_loop. rewrite get_block_step_index. simpl Py.bind.
    destruct (block_index block) as [i|] eqn:Hidx;
      [destruct (Z.eqb_spec i index) as [->|Hne]|].
    + left. exists [], block, rest. simpl. repeat split; tauto.
    + destruct IH as [(pre & b0 & post & -> & Hpre & Hb0 & ->)|[Hall ->]].
      * left. exists (block :: pre), b0, post. split; [reflexivity|].
        split; [|split; [exact Hb0|reflexivity]].
        intros b [<-|Hb]; [congruence|apply Hpre, Hb].
      * right. split; [|reflexivity].
        intros b [<-|Hb]; [congruence|apply Hall, Hb].
    + destruct IH as [(pre & b0 & post & -> & Hpre & Hb0 & ->)|[Hall ->]].
      * left. exists (block :: pre), b0, post. split; [reflexivity|].
        split; [|split; [exact Hb0|reflexivity]].
        intros b [<-|Hb]; [congruence|apply Hpre, Hb].
      * right. split; [|reflexivity].
        intros b [<-|Hb]; [congruence|apply Hall, Hb].
Qed.

(** X15: [get_subtitle_block] never raises. It returns the first block of
    the file, stripped, that is not blank, has at least three lines and whose
    first line is the integer [index]; it returns [None] exactly when the
    file has no such block. *)
Theorem get_subtitle_block_spec (file_text : string) (index : Z) :
  (exists pre block post,
     split_blocks file_text = pre ++ block :: post /\
     (forall b, In b pre -> block_index b <> Some index) /\
     block_index block = Some index /\
     get_subtitle_block file_text index = inr (Some (Py.strip block))) \/
  (forall b, In b (split_blocks file_text) -> block_index b <> Some index) /\
  get_subtitle_block file_text index = inr None.
Proof. apply get_block_loop_spec. Qed.

(** X16: every record that the parser reads from a file can be fetched as a
    block: for its sequence number [get_subtitle_block] returns a block, and
    the first line of that block is that number. *)
Theorem get_subtitle_block_of_parsed (file_text : string)
    (track : list Subtitle) (sub : Subtitle) :
  parse_srt_file file_text = inr track ->
  In sub track ->
  exists block,
    In block (split_blocks file_text) /\
    block_index block = Some (index sub) /\
    get_subtitle_block file_text (index sub) = inr (Some (Py.strip block)).
Proof.
  rewrite parse_srt_file_records. intros [= <-] Hin.
  apply list_elem_of_In, list_elem_of_omap in Hin.
  destruct Hin as (b0 & Hb0 & Hrec). apply list_elem_of_In in Hb0.
  apply block_record_index in Hrec.
  destruct (get_block_loop_spec (index sub) (split_blocks file_text))
    as [(pre & block & post & Hsplit & _ & Hidx & Hget)|[Hnone _]].
  - exists block. split; [|split; assumption].
    rewrite Hsplit. apply in_or_app. right. left. reflexivity.
  - destruct (Hnone b0 Hb0 Hrec).
Qed.

(** ** Sorting by a key *)

Lemma insert_by_perm {A : Type} (key : A -> Z) (x : A) (l : list A) :
  Permutation (insert_by key x l) (x :: l).
Proof.
  induction l as [|y l IH]; simpl; [reflexivity|].
  destruct (key x <=? key y); [reflexivity|].
  rewrite IH. apply perm_swap.
Qed.

Lemma sorted_by_perm {A : Type} (key : A -> Z) (l : list A) :
  Permutation (sorted_by key l) l.
Proof.
  induction l as [|x l IH]; simpl; [reflexivity|].
  rewrite insert_by_perm. constructor. exact IH.
Qed.

Lemma insert_by_sorted {A : Type} (key : A -> Z) (x : A) (l : list A) :
  StronglySorted (fun a b => key a <= key b) l ->
  StronglySorted (fun a b => key a <= key b) (insert_by key x l).
Proof.
  induction l as [|y l IH]; intros Hs; simpl.
  - constructor; [constructor|constructor].
  - apply StronglySorted_inv in Hs. destruct Hs as [Hl Hy].
    destruct (Z.leb_spec (key x) (key y)) as [Hle|Hgt].
    + constructor; [constructor; assumption|].
      constructor; [exact Hle|].
      eapply Forall_impl; [exact Hy|]. intros z Hz. simpl in Hz. lia.
    + constructor; [apply IH, Hl|].
      eapply Permutation_Forall; [symmetry; apply insert_by_perm|].
      constructor; [lia|exact Hy].
Qed.

Lemma sorted_by_sorted {A : Type} (key : A -> Z) (l : list A) :
  StronglySorted (fun a b => key a <= key b) (sorted_by key l).
Proof.
  induction l as [|x l IH]; simpl; [constructor|].
  apply insert_by_sorted, IH.
Qed.

Lemma insert_by_stable {A : Type} (key : A -> Z) (x : A) (l : list A) (k : Z) :
  List.filter (fun a => key a =? k) (insert_by key x l) =
  List.filter (fun a => key a =? k) (x :: l).
Proof.
  induction l as [|y l IH]; [reflexivity|].
  simpl insert_by. destruct (Z.leb_spec (key x) (key y)) as [Hle|Hgt];
    [reflexivity|].
  simpl List.filter in *. rewrite IH.
  destruct (Z.eqb_spec (key x) k); destruct (Z.eqb_spec (key y) k);
    try reflexivity. lia.
Qed.

Lemma sorted_by_stable {A : Type} (key : A -> Z) (l : list A) (k : Z) :
  List.filter (fun a => key a =? k) (sorted_by key l) =
  List.filter (fun a => key a =? k) l.
Proof.
  induction l as [|x l IH]; [reflexivity|].
  simpl sorted_by. rewrite insert_by_stable. simpl. rewrite IH. reflexivity.
Qed.

Lemma collect_loop_spec (start_index end_index : Z) (blocks : list string)
    (acc : list (Z * string)) :
  collect_loop start_index end_index acc blocks =
  inr (acc ++
       omap (fun b =>
               i ← block_index b;
               if (start_index <=? i) && (i <=? end_index)
               then Some (i, Py.strip b) else None) blocks).
Proof.
  revert acc. induction blocks as [|block rest IH]; intros acc.
  - simpl. rewrite app_nil_r. reflexivity.
  - simpl collect_loop. rewrite collect_step_index. simpl Py.bind.
    rewrite IH. simpl omap.
    destruct (block_index block) as [i|]; simpl; [|reflexivity].
    destruct ((start_index <=? i) && (i <=? end_index)); simpl;
      [rewrite <- app_assoc|]; reflexivity.
Qed.

(** X17: [get_subtitle_block_from_en] never raises. Its result holds, once
    each and paired with its number, the stripped numbered blocks of the file
    whose number lies between [start_index] and [end_index]; the pairs are in
    non-decreasing order of number, and blocks with the same number keep their
    file order. *)
Theorem get_subtitle_block_from_en_spec (en_text : string)
    (start_index end_index : Z) :
  exists result,
    get_subtitle_block_from_en en_text start_index end_index = inr result /\
    StronglySorted (fun a b => fst a <= fst b) result /\
    Permutation result
      (omap (fun b =>
               i ← block_index b;
               if (start_index <=? i) && (i <=? end_index)
               then Some (i, Py.strip b) else None)
         (split_blocks en_text)) /\
    (forall i b, In (i, b) result ->
       start_index <= i <= end_index /\
       exists block, In block (split_blocks en_text) /\
                     block_index block = Some i /\ b = Py.strip block) /\
    (forall k,
       map snd (List.filter (fun p => fst p =? k) result) =
       omap (fun b =>
               i ← block_index b;
               if (start_index <=? i) && (i <=? end_index) && (i =? k)
               then Some (Py.strip b) else None)
         (split_blocks en_text)).
Proof.
  unfold get_subtitle_block_from_en. rewrite collect_loop_spec. simpl.
  eexists. split; [reflexivity|].
  split; [apply sorted_by_sorted|]. split; [apply sorted_by_perm|].
  split.
  - intros i b Hin.
    apply (Permutation_in _ (sorted_by_perm fst _)) in Hin.
    apply list_elem_of_In, list_elem_of_omap in Hin.
    destruct Hin as (block & Hblock & Hsome).
    apply list_elem_of_In in Hblock.
    destruct (block_index block) as [j|] eqn:Hj; simpl in Hsome;
      [|discriminate].
    destruct (Z.leb_spec start_index j); destruct (Z.leb_spec j end_index);
      simpl in Hsome; try discriminate.
    injection Hsome as <- <-. split; [lia|].
    exists block. auto.
  - intros k. rewrite sorted_by_stable.
    induction (split_blocks en_text) as [|block rest IH]; [reflexivity|].
    simpl omap. destruct (block_index block) as [j|]; simpl; [|exact IH].
    destruct ((start_index <=? j) && (j <=? end_index)); simpl; [|exact IH].
    destruct (j =? k); simpl; [f_equal|]; exact IH.
Qed.

(** ** The translation stub *)

Example replace_str_ex1 :
  (replace_str "aa" "b" "aaa", replace_str "is" "es" "this is it") =
  ("ba", "thes es it").
Proof. vm_compute. reflexivity. Qed.

Lemma replace_absent (old new s : string) :
  Py.contains old s = false -> replace_str old new s = s.
Proof.
  unfold replace_str. induction s as [|c s IH]; [reflexivity|].
  cbn [Py.contains replace_go]. intros H.
  apply orb_false_iff in H. destruct H as [Hp Hs].
  rewrite Hp, (IH Hs). reflexivity.
Qed.

Lemma first_specific_spec (lower : string -> string)
    (table : list (string * string)) (english_text : string) :
  (first_specific lower table english_text = None /\
   forall eng spa, In (eng, spa) table ->
     Py.contains (lower eng) (lower english_text) = false) \/
  exists pre eng spa post,
    table = pre ++ (eng, spa) :: post /\
    (forall p, In p pre ->
       Py.contains (lower (fst p)) (lower english_text) = false) /\
    Py.contains (lower eng) (lower english_text) = true /\
    first_specific lower table english_text =
    Some (replace_str eng spa english_text).
Proof.
  induction table as [|[eng spa] rest IH].
  - left. split; [reflexivity|]. intros eng spa [].
  - cbn [first_specific].
    destruct (Py.contains (lower eng) (lower english_text)) eqn:Hc.
    + right. exists [], eng, spa, rest. repeat split; try tauto.
      intros p [].
    + destruct IH as [[Hnone Hall]|(pre & e & s & post & -> & Hpre & He & Hf)].
      * left. split; [exact Hnone|].
        intros e s [[= <- <-]|Hin]; [exact Hc|exact (Hall e s Hin)].
      * right. exists ((eng, spa) :: pre), e, s, post.
        split; [reflexivity|]. split; [|split; assumption].
        intros p [<-|Hp]; [exact Hc|exact (Hpre p Hp)].
Qed.

(** X18: whatever the case mapping is, [translate_text] returns either the
    input behind the mark "[TRADUCIR]: ", when no phrase of
    [specific_translations] occurs in it up to case, or the input in which the
    first such phrase, in the order of the dictionary, is replaced by its
    translation where it occurs literally; the common terms are never
    replaced. When that phrase occurs only up to case, the input comes back
    unchanged and without the mark. *)
Theorem translate_text_cases (lower : string -> string)
    (english_text : string) :
  ((forall eng spa, In (eng, spa) specific_translations ->
      Py.contains (lower eng) (lower english_text) = false) /\
   translate_text lower english_text =
   ("[TRADUCIR]: " ++ english_text)%string) \/
  exists pre eng spa post,
    specific_translations = pre ++ (eng, spa) :: post /\
    (forall p, In p pre ->
       Py.contains (lower (fst p)) (lower english_text) = false) /\
    Py.contains (lower eng) (lower english_text) = true /\
    translate_text lower english_text = replace_str eng spa english_text /\
    (Py.contains eng english_text = false ->
     translate_text lower english_text = english_text).
Proof.
  unfold translate_text.
  destruct (first_specific_spec lower specific_translations english_text)
    as [[Hnone Hall]|(pre & eng & spa & post & Htable & Hpre & Hc & Hf)].
  - left. rewrite Hnone. split; [exact Hall|reflexivity].
  - right. exists pre, eng, spa, post. rewrite Hf.
    split; [exact Htable|]. split; [exact Hpre|]. split; [exact Hc|].
    split; [reflexivity|]. intros Habs. apply replace_absent, Habs.
Qed.

Example translate_text_ex1 :
  (translate_text ascii_lower "It is a collaborative effort.",
   translate_text ascii_lower "IT IS A COLLABORATIVE EFFORT.",
   translate_text ascii_lower "WOMAN: Bitcoin") =
  ("It es un esfuerzo colaborativo.",
   "IT IS A COLLABORATIVE EFFORT.",
   "[TRADUCIR]: WOMAN: Bitcoin").
Proof. vm_compute. reflexivity. Qed.

(** ** The decoder: no range check, no distinction between separators *)




Lemma replace_replace (s : string) :
  Py.replace "," ":" (Py.replace ":" "," s) = Py.replace "," ":" s /\
  Py.replace "," ":" (Py.replace "," ":" s) = Py.replace "," ":" s.
Proof.
  induction s as [|c s [IH1 IH2]]; [split; reflexivity|].
  cbn [Py.replace]. rewrite IH1, IH2.
  destruct (ascii_dec c ":") as [Hc|Hc]; [subst c; split; reflexivity|].
  destruct (ascii_dec c ",") as [Hc'|Hc']; [subst c; split; reflexivity|].
  apply Ascii.eqb_neq in Hc. apply Ascii.eqb_neq in Hc'.
  rewrite Hc, Hc', Hc'. split; reflexivity.
Qed.

(** X20: the decoder does not tell commas from colons: turning every colon
    of a text into a comma, or every comma into a colon, does not change what
    it returns or whether it raises. *)
Theorem parse_timestamp_separators (time_str : string) :
  parse_timestamp (Py.replace ":" "," time_str) = parse_timestamp time_str /\
  parse_timestamp (Py.replace "," ":" time_str) = parse_timestamp time_str.
Proof.
  unfold parse_timestamp. destruct (replace_replace time_str) as [-> ->].
  split; reflexivity.
Qed.

(** ** Windows of the range verifier, and the boundary *)

(** X21: shrinking a clean window keeps it clean, and two clean windows that
    share their end index make a clean window: for [start <= mid <= end] the
    range [start, end] is clean exactly when [start, mid] and [mid, end]
    are. *)
Theorem verify_range_sync_split (en_subs es_subs : list Subtitle)
    (start_range mid end_range : Z) :
  start_range <= mid <= end_range ->
  (verify_range_sync en_subs es_subs start_range end_range = true <->
   verify_range_sync en_subs es_subs start_range mid = true /\
   verify_range_sync en_subs es_subs mid end_range = true).
Proof.
  intros Hmid. rewrite !clean_range_iff. split.
  - intros H. split; intros i Hi.
    + destruct (H i ltac:(lia)) as (a & b & Ha & Hb & Hd & Ho).
      exists a, b. auto.
    + destruct (H i ltac:(lia)) as (a & b & Ha & Hb & Hd & Ho).
      exists a, b. repeat split; try assumption.
      intros Hlt. apply Ho. lia.
  - intros [H1 H2] i Hi.
    destruct (Z.le_gt_cases i mid) as [Hle|Hgt].
    + exact (H1 i ltac:(lia)).
    + destruct (H2 i ltac:(lia)) as (a & b & Ha & Hb & Hd & Ho).
      exists a, b. repeat split; try assumption.
      intros _. apply Ho. lia.
Qed.

Lemma verify_range_sync_split_witness :
  verify_range_sync track7 track7 2 6 = true <->
  verify_range_sync track7 track7 2 4 = true /\
  verify_range_sync track7 track7 4 6 = true.
Proof. apply (verify_range_sync_split track7 track7 2 4 6). lia. Defined.

(** X22: the two analyses agree: when a window [start, end] with
    [1 <= start] and at least five indices is clean for the range verifier,
    the boundary finder returns a boundary at or after [end]. *)
Theorem clean_range_within_boundary (en_subs es_subs : list Subtitle)
    (start_range end_range : Z) :
  1 <= start_range -> start_range + 4 <= end_range ->
  verify_range_sync en_subs es_subs start_range end_range = true ->
  exists L, find_last_good_sync en_subs es_subs = inr L /\ end_range <= L.
Proof.
  intros Hstart Hlen Hclean.
  pose proof (proj1 (clean_range_iff _ _ _ _) Hclean) as Hall.
  assert (Hali : forall i, start_range <= i <= end_range ->
            aligned_at en_subs es_subs i).
  { intros i Hi. destruct (Hall i Hi) as (a & b & Ha & Hb & Hd & _).
    exists a, b. repeat split; try assumption. lia. }
  destruct (Hall end_range ltac:(lia)) as (a & b & Ha & Hb & _).
  apply by_index_Some in Ha. apply by_index_Some in Hb.
  destruct Ha as [Ha Hia]. destruct Hb as [Hb Hib].
  assert (Hne : en_subs <> []) by (intros ->; destruct Ha).
  assert (Hne' : es_subs <> []) by (intros ->; destruct Hb).
  destruct (find_last_good_sync_nonempty _ _ Hne Hne')
    as (m1 & m2 & H1 & H2 & Heq).
  eexists. split; [exact Heq|].
  destruct (max_index_keys _ _ H1) as [_ Hmax1].
  destruct (max_index_keys _ _ H2) as [_ Hmax2].
  specialize (Hmax1 a Ha). specialize (Hmax2 b Hb).
  apply (sync_loop_exact en_subs es_subs (Z.min m1 m2)); [lia|].
  intros k Hk. apply Hali. lia.
Qed.

Lemma clean_range_within_boundary_witness :
  exists L, find_last_good_sync track7 track7 = inr L /\ 6 <= L.
Proof.
  apply (clean_range_within_boundary track7 track7 2 6).
  - lia.
  - lia.
  - vm_compute. reflexivity.
Defined.

(** ** The sample file *)

Example sample_file_parsed : parse_srt_file sample_file = inr sample_track.
Proof. vm_compute. reflexivity. Qed.

Example sample_file_extracted :
  (extract_first_n_subtitles sample_file 2,
   get_subtitle_block sample_file 3,
   get_subtitle_block sample_file 4,
   get_subtitle_block_from_en sample_file 1 2) =
  (inr ("2
00:00:02,000 --> 00:00:03,000
two

1
00:00:01,000 --> 00:00:01,500
one
", 2),
   inr (Some "3
00:00:04,000 --> 00:00:05,000
three"),
   inr None,
   inr [(1, "1
00:00:01,000 --> 00:00:01,500
one"); (2, "2
00:00:02,000 --> 00:00:03,000
two")]).
Proof. vm_compute. reflexivity. Qed.

Lemma parse_srt_file_record_invariant_witness :
  let sub := mkSubtitle 1 "00:00:01,000" "00:00:01,500" "one" 1000 in
  parse_timestamp (start_time sub) = inr (timestamp_ms sub) /\
  exists block,
    In block (split_blocks sample_file) /\
    let lines := Py.split LF (Py.strip block) in
    (3 <= length lines)%nat /\
    Py.int (nth 0 lines EmptyString) = inr (index sub) /\
    text sub = Py.join LF (skipn 2 lines).
Proof.
  apply (parse_srt_file_record_invariant sample_file sample_track).
  - vm_compute. reflexivity.
  - right. left. reflexivity.
Defined.

Lemma get_subtitle_block_of_parsed_witness :
  let sub := mkSubtitle 3 "00:00:04,000" "00:00:05,000" "three" 4000 in
  exists block,
    In block (split_blocks sample_file) /\
    block_index block = Some (index sub) /\
    get_subtitle_block sample_file (index sub) = inr (Some (Py.strip block)).
Proof.
  apply (get_subtitle_block_of_parsed sample_file sample_track).
  - vm_compute. reflexivity.
  - right. right. left. reflexivity.
Defined.

Lemma extract_first_n_subtitles_mono_witness :
  exists kept more written written',
    extract_loop 1 [] (split_blocks sample_file) = inr kept /\
    extract_loop 2 [] (split_blocks sample_file) = inr (kept ++ more) /\
    extract_first_n_subtitles sample_file 1 =
      inr (written, Z.of_nat (length kept)) /\
    extract_first_n_subtitles sample_file 2 =
      inr (written', Z.of_nat (length kept) + Z.of_nat (length more)).
Proof. apply (extract_first_n_subtitles_mono sample_file 1 2). lia. Defined.

Lemma max_index_track7 : max_index track7 7.
Proof.
  split.
  - exists (cue 7 "00:00:07,000" 7000). split; [simpl; auto 10|reflexivity].
  - intros s Hs. simpl in Hs.
    repeat (destruct Hs as [<-|Hs]; [simpl; lia|]). destruct Hs.
Defined.

Lemma find_last_good_sync_last_run_witness :
  exists L,
    find_last_good_sync track7 track7 = inr L /\
    (L = 0 \/ 5 <= L <= Z.min 7 7 /\ run_of_five track7 track7 L) /\
    forall j, 5 <= j <= Z.min 7 7 -> run_of_five track7 track7 j -> j <= L.
Proof.
  apply (find_last_good_sync_last_run track7 track7 7 7);
    exact max_index_track7.
Defined.

(** ** Appending the fetched blocks *)

Lemma append_step_written (lower : string -> string) (total i idx : Z)
    (b : string) :
  (3 <= length (Py.split LF b))%nat ->
  append_step lower total i (idx, b) =
  String.append (translated_block lower b)
    (if i <? total - 1 then LF else EmptyString).
Proof.
  intros Hb. unfold append_step, translated_block.
  destruct (Nat.leb_spec 3 (length (Py.split LF b))); [|lia].
  cbv zeta. rewrite !append_assoc. reflexivity.
Qed.

Lemma join_cons_cons (sep x y : string) (l : list string) :
  Py.join sep (x :: y :: l) = (x ++ sep ++ Py.join sep (y :: l))%string.
Proof. reflexivity. Qed.

Lemma append_loop_all (lower : string -> string) (total : Z)
    (blocks : list (Z * string)) (i : Z) :
  (forall p, In p blocks -> (3 <= length (Py.split LF (snd p)))%nat) ->
  i + Z.of_nat (length blocks) = total ->
  append_loop lower total i blocks =
  Py.join LF (map (fun p => translated_block lower (snd p)) blocks).
Proof.
  revert i. induction blocks as [|[idx b] rest IH]; intros i Hall Hlen;
    [reflexivity|].
  cbn [append_loop].
  rewrite (append_step_written lower total i idx b
             (Hall (idx, b) (or_introl eq_refl))).
  rewrite (IH (i + 1));
    [|intros p Hp; apply Hall; right; exact Hp|simpl length in Hlen; lia].
  destruct rest as [|q rest].
  - simpl length in Hlen. destruct (Z.ltb_spec i (total - 1)); [lia|].
    simpl map. cbn [Py.join]. rewrite !append_nil_r. reflexivity.
  - simpl length in Hlen. destruct (Z.ltb_spec i (total - 1)); [|lia].
    simpl map. rewrite join_cons_cons, append_assoc. reflexivity.
Qed.

(** X23: no block fetched by [get_subtitle_block_from_en] is skipped by
    [append_translated_blocks]: each has at least three lines, and the
    appended text is a blank line followed by, for every fetched block in
    order, its first line, its second line and the translation of its other
    lines, each ended by a line feed, with one empty line between two
    blocks. *)
Theorem append_fetched_blocks (lower : string -> string) (en_text : string)
    (start_index end_index : Z) (fetched : list (Z * string)) :
  get_subtitle_block_from_en en_text start_index end_index = inr fetched ->
  (forall p, In p fetched -> (3 <= length (Py.split LF (snd p)))%nat) /\
  append_translated_blocks lower fetched =
  (LF ++ LF ++
   Py.join LF (map (fun p => translated_block lower (snd p)) fetched))%string.
Proof.
  intros Hget.
  assert (Hall : forall p, In p fetched ->
            (3 <= length (Py.split LF (snd p)))%nat).
  { unfold get_subtitle_block_from_en in Hget.
    rewrite collect_loop_spec in Hget. simpl in Hget. injection Hget as <-.
    intros [i b] Hin.
    apply (Permutation_in _ (sorted_by_perm fst _)) in Hin.
    apply list_elem_of_In, list_elem_of_omap in Hin.
    destruct Hin as (block & _ & Hsome). unfold block_index in Hsome.
    destruct (String.eqb (Py.strip block) EmptyString); [discriminate|].
    destruct (Nat.ltb_spec (length (Py.split LF (Py.strip block))) 3)
      as [|Hlen]; [discriminate|].
    destruct (Py.int _); [discriminate|]. simpl in Hsome.
    destruct ((start_index <=? z) && (z <=? end_index)); [|discriminate].
    injection Hsome as <- <-. exact Hlen. }
  split; [exact Hall|].
  unfold append_translated_blocks.
  rewrite (append_loop_all lower _ fetched 0 Hall); [reflexivity|lia].
Qed.

Lemma append_fetched_blocks_witness :
  append_translated_blocks ascii_lower
    [(1, "1
00:00:01,000 --> 00:00:01,500
one"); (2, "2
00:00:02,000 --> 00:00:03,000
two")] =
  "

1
00:00:01,000 --> 00:00:01,500
[TRADUCIR]: one

2
00:00:02,000 --> 00:00:03,000
[TRADUCIR]: two
".
Proof.
  destruct (append_fetched_blocks ascii_lower sample_file 1 2
              [(1, "1
00:00:01,000 --> 00:00:01,500
one"); (2, "2
00:00:02,000 --> 00:00:03,000
two")]) as [_ Heq].
  - vm_compute. reflexivity.
  - rewrite Heq. vm_compute. reflexivity.
Defined.
